(** * pyee (MicroPython port): the event emitter of [pyee/base.py]

    A shallow embedding of [EventEmitter] and the properties of its
    registry and of its synchronous dispatch.

    - Callables are known by their identity ([listener]); what a callable
      does when it is called is a parameter of the development ([body]):
      an arbitrary transformer of the emitter and of the rest of the
      interpreter state, which may return or raise.
    - [self._events] is a [dict] from event names to [OrderedDict]s from a
      listener to the callable to invoke for it.
    - Methods are computations in a state-and-exception monad over
      [world]. *)

From Stdlib Require Import ZArith.
From stdpp Require Import base strings list gmap.

Set Default Proof Using "Type".

(** ** Values and exceptions *)

(** The identity of a callable (functions hash and compare by identity). *)
Definition listener := nat.

(** Python values that reach the emitter. [VExc e] is an instance of
    [Exception]; every other constructor is not. *)
Inductive value : Type :=
| VNone
| VBool (b : bool)
| VInt (z : Z)
| VStr (s : string)
| VFun (f : listener)
| VExc (e : exn)
with exn : Type :=
| KeyError (key : value)
    (* raised by [d[k]], [d.pop(k)] and [del d[k]] on a missing key *)
| PyeeError (payload : value)
    (* PyeeError(f"Uncaught, unspecified 'error' event: {payload}") *)
| UserError (name : string).
    (* any other exception made by user code *)

(** [*args] and [**kwargs] of a call. *)
Record arguments := Args {
  positional : list value;
  keywords : list (string * value)
}.

(** What [self._events[event]] maps a listener to: the listener itself for
    [on], and for [once] the closure [g] of [_wrapper], which captures
    [event] and [f]. *)
Inductive invocable : Type :=
| Plain (f : listener)
| OnceWrapper (event : string) (f : listener).

(** ** OrderedDict *)

(** Insertion-ordered, keyed by listener; keys are unique. *)
Abbreviation OrderedDict := (list (listener * invocable)).

Definition keys (d : OrderedDict) : list listener := d.*1.
Definition values (d : OrderedDict) : list invocable := d.*2.

(** [k in d] *)
Definition od_contains (k : listener) (d : OrderedDict) : bool :=
  bool_decide (k ∈ keys d).

(** [d[k] = v]: a key already present keeps its position and gets the new
    value; a new key goes to the end. *)
Fixpoint od_set (k : listener) (v : invocable) (d : OrderedDict) : OrderedDict :=
  match d with
  | [] => [(k, v)]
  | (k', v') :: d' =>
      if decide (k' = k) then (k', v) :: d' else (k', v') :: od_set k v d'
  end.

(** [d.pop(k)]: the value and the dictionary without [k], or [None] where
    Python raises [KeyError(k)]. *)
Fixpoint od_pop (k : listener) (d : OrderedDict) : option (invocable * OrderedDict) :=
  match d with
  | [] => None
  | (k', v') :: d' =>
      if decide (k' = k) then Some (v', d')
      else '(v, d'') ← od_pop k d'; Some (v, (k', v') :: d'')
  end.

(** ** The state and the monad *)

Abbreviation registry := (gmap string OrderedDict).

Inductive result (A : Type) : Type :=
| Ok (a : A)
| Raise (e : exn).
Arguments Ok {A} a.
Arguments Raise {A} e.

Section Emitter.

(** The interpreter state that listeners can read and write, apart from
    the emitter. *)
Context {heap : Type}.

(** [calls] is not a field of the object: it logs each call that the
    emitter makes to a listener, oldest first. *)
Record world := World {
  _events : registry;
  user : heap;
  calls : list (listener * arguments)
}.

(** What calling the callable [f] with [a] does, and whether it returns or
    raises: listeners are arbitrary code, they may change the heap and call
    back into the emitter. *)
Variable body : listener → arguments → world → result value * world.

Definition M (A : Type) : Type := world → result A * world.

Definition ret {A} (a : A) : M A := λ w, (Ok a, w).
Definition raise {A} (e : exn) : M A := λ w, (Raise e, w).
Definition bind {A B} (m : M A) (k : A → M B) : M B :=
  λ w, match m w with
       | (Ok a, w') => k a w'
       | (Raise e, w') => (Raise e, w')
       end.

Notation "x <- m ;; k" := (bind m (λ x, k))
  (at level 100, m at next level, right associativity).
Notation "m ;; k" := (bind m (λ _, k))
  (at level 100, right associativity).

Definition get_events : M registry := λ w, (Ok (_events w), w).
Definition set_events (ev : registry) : M unit :=
  λ w, (Ok tt, World ev (user w) (calls w)).

(** [self._events[event]] *)
Definition events_getitem (event : string) : M OrderedDict :=
  ev <- get_events ;;
  match ev !! event with
  | Some d => ret d
  | None => raise (KeyError (VStr event))
  end.

(** [self._events[event] = d] *)
Definition events_setitem (event : string) (d : OrderedDict) : M unit :=
  ev <- get_events ;; set_events (<[event := d]> ev).

(** [del self._events[event]] *)
Definition events_delitem (event : string) : M unit :=
  ev <- get_events ;;
  match ev !! event with
  | Some _ => set_events (delete event ev)
  | None => raise (KeyError (VStr event))
  end.

(** [with self._lock: m]. The lock is not reentrant, and no block that
    holds it calls a listener, so in one thread it is free at every
    acquisition and the block runs as it is. *)
Definition with_lock {A} (m : M A) : M A := m.

Definition record_call (f : listener) (a : arguments) (w : world) : world :=
  World (_events w) (user w) (calls w ++ [(f, a)]).

(** Calling the listener [f] with [a]: logged, then run. *)
Definition call (f : listener) (a : arguments) : M value :=
  λ w, body f a (record_call f a w).

(** ** EventEmitter *)

Definition _remove_listener (event : string) (f : listener) : M unit :=
  d <- events_getitem event ;;
  match od_pop f d with
  | None => raise (KeyError (VFun f))
  | Some (_, d') =>
      events_setitem event d' ;;
      d'' <- events_getitem event ;;
      if bool_decide (length d'' = 0) then events_delitem event else ret tt
  end.

(** The closure [g] that [once] stores for [f] under [event]. *)
Definition g (event : string) (f : listener) (a : arguments) : M value :=
  registered <- with_lock (
    ev <- get_events ;;
    if bool_decide (event ∈ dom ev) && od_contains f (default [] (ev !! event))
    then _remove_listener event f ;; ret true
    else ret false) ;;
  if registered : bool then call f a else ret VNone.

Definition invoke (f : invocable) (a : arguments) : M value :=
  match f with
  | Plain f => call f a
  | OnceWrapper event f => g event f a
  end.

Definition _emit_run (f : invocable) (a : arguments) : M unit :=
  invoke f a ;; ret tt.

Definition _emit_handle_potential_error (event : string) (error : value) : M unit :=
  if bool_decide (event = "error") then
    match error with
    | VExc e => raise e
    | _ => raise (PyeeError error)
    end
  else ret tt.

(** The loop [for f in funcs] of [_call_handlers]. *)
Fixpoint run_handlers (funcs : list invocable) (a : arguments) (handled : bool) : M bool :=
  match funcs with
  | [] => ret handled
  | f :: funcs' => _emit_run f a ;; run_handlers funcs' a true
  end.

Definition _call_handlers (event : string) (a : arguments) : M bool :=
  funcs <- with_lock (
    ev <- get_events ;; ret (values (default [] (ev !! event)))) ;;
  run_handlers funcs a false.

(** [args[0] if args else None] *)
Definition first_positional (a : arguments) : value :=
  match positional a with
  | x :: _ => x
  | [] => VNone
  end.

Definition emit (event : string) (a : arguments) : M bool :=
  handled <- _call_handlers event a ;;
  (if negb handled
   then _emit_handle_potential_error event (first_positional a)
   else ret tt) ;;
  ret handled.

Definition _add_event_handler (event : string) (k : listener) (v : invocable) : M unit :=
  emit "new_listener" (Args [VStr event; VFun k] []) ;;
  with_lock (
    ev <- get_events ;;
    (if bool_decide (event ∉ dom ev) then events_setitem event [] else ret tt) ;;
    d <- events_getitem event ;;
    events_setitem event (od_set k v d)).

Definition add_listener (event : string) (f : listener) : M listener :=
  _add_event_handler event f (Plain f) ;; ret f.

(** The decorator that [listens_to(event)] returns. *)
Definition listens_to (event : string) : listener → M listener :=
  λ f, _add_event_handler event f (Plain f) ;; ret f.

(** [on] and [once] return the listener, or a decorator when [f] is
    [None]. *)
Inductive registration : Type :=
| Registered (f : listener)
| Decorator (d : listener → M listener).

Definition on (event : string) (f : option listener) : M registration :=
  match f with
  | None => ret (Decorator (listens_to event))
  | Some f => f' <- add_listener event f ;; ret (Registered f')
  end.

Definition _wrapper (event : string) : listener → M listener :=
  λ f, _add_event_handler event f (OnceWrapper event f) ;; ret f.

Definition once (event : string) (f : option listener) : M registration :=
  match f with
  | None => ret (Decorator (_wrapper event))
  | Some f => f' <- _wrapper event f ;; ret (Registered f')
  end.

Definition remove_listener (event : string) (f : listener) : M unit :=
  with_lock (_remove_listener event f).

Definition remove_all_listeners (event : option string) : M unit :=
  with_lock (
    match event with
    | Some event => events_setitem event []
    | None => set_events ∅
    end).

Definition event_names (w : world) : gset string := dom (_events w).

Definition listeners (event : string) (w : world) : list listener :=
  keys (default [] (_events w !! event)).

End Emitter.

(** ** Vocabulary of the statements *)

(** The world once the locked block of [_add_event_handler] has stored [v]
    for [k] under [event]. *)
Definition registered {heap} (event : string) (k : listener) (v : invocable)
    (w : @world heap) : @world heap :=
  World (<[event := od_set k v (default [] (_events w !! event))]> (_events w))
    (user w) (calls w).

(** What [emit] makes of the outcome of the one listener it runs: [True]
    when the listener returns, its exception when it raises. *)
Definition handled {A} (r : result A) : result bool :=
  match r with
  | Ok _ => Ok true
  | Raise e => Raise e
  end.

(** The invariant of the registry in the specification: no event is kept
    with an empty collection. *)
Definition no_empty_collection (ev : registry) : Prop :=
  ∀ event d, ev !! event = Some d → d ≠ [].

(** A caller that registers listeners under [event] one after the other,
    with [once] where the flag is set and with [on] elsewhere. *)
Fixpoint register_all {heap}
    (body : listener → arguments → @world heap → result value * @world heap)
    (event : string) (fs : list (bool * listener)) : M unit :=
  match fs with
  | [] => ret tt
  | (one_shot, f) :: fs' =>
      bind ((if one_shot : bool then once else on) body event (Some f))
        (λ _, register_all body event fs')
  end.

(** ** Invariants that the emitter keeps *)

(** In the collection of [event] a listener is a key once, and what is
    stored for it is the listener itself or its wrapper for [event]. *)
Definition wf_collection (event : string) (d : OrderedDict) : Prop :=
  NoDup (keys d) ∧ ∀ k v, (k, v) ∈ d → v = Plain k ∨ v = OnceWrapper event k.

Definition well_formed (ev : registry) : Prop :=
  ∀ event d, ev !! event = Some d → wf_collection event d.

Definition is_once (v : invocable) : bool :=
  match v with
  | Plain _ => false
  | OnceWrapper _ _ => true
  end.

(** The listener that a stored callable calls. *)
Definition listener_of (v : invocable) : listener :=
  match v with
  | Plain f => f
  | OnceWrapper _ f => f
  end.

(** The listeners that a dispatch to [fs] calls when [raises] tells which
    listeners raise: all up to the first that raises, and its exception. *)
Fixpoint called_until_raise (raises : listener → option exn) (fs : list listener)
    : list listener * option exn :=
  match fs with
  | [] => ([], None)
  | f :: fs' =>
      match raises f with
      | Some e => ([f], Some e)
      | None => let '(called, r) := called_until_raise raises fs' in (f :: called, r)
      end
  end.

(** ** Callers *)

(** The calls that a user of the emitter makes. *)
Inductive operation : Type :=
| CallOn (event : string) (f : listener)
| CallOnce (event : string) (f : listener)
| CallEmit (event : string) (a : arguments)
| CallRemoveListener (event : string) (f : listener)
| CallRemoveAllListeners (event : option string).

(** The emitter after one call, whether the call has returned or raised. *)
Definition perform {heap}
    (body : listener → arguments → @world heap → result value * @world heap)
    (o : operation) (w : @world heap) : @world heap :=
  match o with
  | CallOn event f => (on body event (Some f) w).2
  | CallOnce event f => (once body event (Some f) w).2
  | CallEmit event a => (emit body event a w).2
  | CallRemoveListener event f => (remove_listener event f w).2
  | CallRemoveAllListeners event => (remove_all_listeners event w).2
  end.

Definition perform_all {heap}
    (body : listener → arguments → @world heap → result value * @world heap)
    (os : list operation) (w : @world heap) : @world heap :=
  foldl (λ w o, perform body o w) w os.

(** Whether a call is [remove_all_listeners] with an event. *)
Definition clears_one_event (o : operation) : bool :=
  match o with
  | CallRemoveAllListeners (Some _) => true
  | _ => false
  end.

(** ** Pickling *)

(** An attribute in [self.__dict__]: the registry, a lock and whether it
    is held, or any other value. *)
Inductive attribute : Type :=
| AttrEvents (ev : registry)
| AttrLock (held : bool)
| AttrValue (v : value).

Definition __init__ (self : gmap string attribute) : gmap string attribute :=
  <["_lock" := AttrLock false]> (<["_events" := AttrEvents ∅]> self).

Definition __getstate__ (self : gmap string attribute)
    : result (gmap string attribute) :=
  let state := self in
  match state !! "_lock" with
  | Some _ => Ok (delete "_lock" state)
  | None => Raise (KeyError (VStr "_lock"))
  end.

(** [self.__dict__] after [__setstate__(state)]. *)
Definition __setstate__ (self state : gmap string attribute)
    : gmap string attribute :=
  <["_lock" := AttrLock false]> (state ∪ self).

(** ** [pyee/cls.py] *)

Module cls.

Record Handler := mkHandler {
  event : string;
  method : nat
}.

(** The list [_handlers] of a [Handlers] object. *)
Abbreviation Handlers := (list Handler).

Definition append (handler : Handler) (self : Handlers) : Handlers :=
  self ++ [handler].

Definition reset (self : Handlers) : Handlers := [].

(** [bound], the closure that [_bind(self, method)] makes, for a method
    whose call is [method_body]. *)
Definition _bind {heap} (self : value) (method_body : arguments → @M heap value)
    : arguments → @M heap value :=
  λ a, method_body (Args (self :: positional a) (keywords a)).

(** The loop [for h in handlers] of [init]; [bound i] is the closure that
    [_bind] makes in the round [i]. *)
Fixpoint register {heap}
    (body : listener → arguments → @world heap → result value * @world heap)
    (bound : nat → listener) (i : nat) (handlers : list Handler) : M unit :=
  match handlers with
  | [] => ret tt
  | h :: handlers' =>
      bind (on body (event h) (Some (bound i)))
        (λ _, register body bound (S i) handlers')
  end.

(** The [__init__] that [evented] gives the class. [og_init] is the
    [__init__] that the class had, and tells whether it has left the
    object with an [event_emitter]; the registry of the world is the one
    of [self.event_emitter]. *)
Definition init {heap}
    (body : listener → arguments → @world heap → result value * @world heap)
    (handlers : list Handler) (og_init : option (@M heap bool))
    (bound : nat → listener) : M unit :=
  bind (match og_init with
        | Some og_init => og_init
        | None => ret false
        end)
    (λ has_event_emitter,
       bind (if has_event_emitter : bool then ret tt else set_events ∅)
         (λ _, register body bound 0 handlers)).

(** [evented(cls)]: the handlers that the new [__init__] keeps, and the
    list of the module afterwards. *)
Definition evented (_handlers : Handlers) : list Handler * Handlers :=
  (_handlers, reset _handlers).

(** The decorator that [on(event)] returns, applied to [method]. *)
Definition on (event : string) (method : nat) (_handlers : Handlers)
    : nat * Handlers :=
  (method, append (mkHandler event method) _handlers).

(** A module that decorates the methods [ms] one after the other. *)
Definition declare (ms : list (string * nat)) (_handlers : Handlers) : Handlers :=
  foldl (λ hs m, (on m.1 m.2 hs).2) _handlers ms.

(** The listeners that [register] stores under [e]. *)
Fixpoint bound_for (e : string) (bound : nat → listener) (i : nat)
    (handlers : list Handler) : list listener :=
  match handlers with
  | [] => []
  | h :: handlers' =>
      (if decide (event h = e) then [bound i] else [])
      ++ bound_for e bound (S i) handlers'
  end.

End cls.

(** ** Listeners used in the examples *)

(** The world of a new emitter, as [__init__] makes it. *)
Definition new_emitter : @world unit := World ∅ tt [].

(** Every listener returns [None] and touches nothing. *)
Definition quiet : listener → arguments → @world unit → result value * @world unit :=
  λ _ _ w, (Ok VNone, w).

(** Listener [1] raises, every other listener returns [None]. *)
Definition one_raises : listener → arguments → @world unit → result value * @world unit :=
  λ f _ w, if decide (f = 1) then (Raise (UserError "boom"), w) else (Ok VNone, w).

Definition no_arguments : arguments := Args [] [].

(** Which listener [one_raises] lets raise, and what. *)
Definition one_raises_what : listener → option exn :=
  λ f, if decide (f = 1) then Some (UserError "boom") else None.



(** An emitter with the listeners [0], by [on], [1], by [once], and [2],
    by [on], under ["x"]. *)
Definition three_listeners : @world unit :=
  registered "x" 2 (Plain 2)
    (registered "x" 1 (OnceWrapper "x" 1)
       (registered "x" 0 (Plain 0) new_emitter)).


(** * Properties *)

(** ** OrderedDict *)

Lemma keys_nil_inv (d : OrderedDict) : keys d = [] → d = [].
Proof. by destruct d. Qed.

Lemma values_nil (d : OrderedDict) : keys d = [] → values d = [].
Proof. by intros ->%keys_nil_inv. Qed.

Lemma keys_od_set k v (d : OrderedDict) :
  keys (od_set k v d) = if decide (k ∈ keys d) then keys d else keys d ++ [k].
Proof.
  unfold keys. induction d as [|[k' v'] d IH]; [done|].
  cbn [od_set]. rewrite fmap_cons. cbn [fst].
  destruct (decide (k' = k)) as [->|Hne].
  - rewrite fmap_cons. cbn [fst]. rewrite decide_True; [done | left].
  - rewrite fmap_cons, IH. cbn [fst]. destruct (decide (k ∈ d.*1)) as [Hin|Hnin].
    + rewrite decide_True; [done | by right].
    + rewrite decide_False; [done |].
      intros [?|?]%elem_of_cons; congruence.
Qed.

Lemma elem_of_od_set k v (d : OrderedDict) : (k, v) ∈ od_set k v d.
Proof.
  induction d as [|[k' v'] d IH]; cbn [od_set].
  - left.
  - destruct (decide (k' = k)) as [->|Hne]; [left | by right].
Qed.

(** Storing again what is stored changes nothing. *)
Lemma od_set_same k v (d : OrderedDict) :
  NoDup (keys d) → (k, v) ∈ d → od_set k v d = d.
Proof.
  unfold keys. induction d as [|[k' v'] d IH]; intros Hnd Hin.
  - by apply elem_of_nil in Hin.
  - rewrite fmap_cons in Hnd. cbn [fst od_set] in *.
    apply NoDup_cons in Hnd as [Hk' Hnd].
    destruct (decide (k' = k)) as [->|Hne].
    + apply elem_of_cons in Hin as [Heq|Hin]; [congruence |].
      exfalso. apply Hk'. by apply (list_elem_of_fmap_2 fst _ (k, v)).
    + f_equal. apply IH; [done |].
      apply elem_of_cons in Hin as [Heq|Hin]; [congruence | done].
Qed.

Lemma od_pop_None k (d : OrderedDict) : od_pop k d = None ↔ k ∉ keys d.
Proof.
  unfold keys. induction d as [|[k' v'] d IH].
  - split; [intros _; apply not_elem_of_nil | done].
  - cbn [od_pop]. rewrite fmap_cons. cbn [fst].
    destruct (decide (k' = k)) as [->|Hne].
    + split; [done | intros []; left].
    + rewrite not_elem_of_cons. destruct (od_pop k d) as [[v d'']|]; simpl.
      * split; [done |]. intros [_ Hnin]. by apply IH in Hnin.
      * split; [| done]. intros _. split; [congruence | by apply IH].
Qed.

Lemma filter_Forall_id {A} (P : A → Prop) `{!∀ x, Decision (P x)} (l : list A) :
  Forall P l → filter P l = l.
Proof.
  induction 1 as [|x l Hx _ IH]; [done |].
  by rewrite filter_cons_True, IH.
Qed.

(** [pop] takes the key out and keeps the others in their order. *)
Lemma od_pop_Some k v (d d' : OrderedDict) :
  NoDup (keys d) →
  od_pop k d = Some (v, d') →
  (k, v) ∈ d ∧ d' = filter (λ p, p.1 ≠ k) d.
Proof.
  unfold keys. revert v d'. induction d as [|[k' v'] d IH]; intros v d'' Hnd Hpop.
  - done.
  - rewrite fmap_cons in Hnd. cbn [fst od_pop] in *.
    apply NoDup_cons in Hnd as [Hk' Hnd].
    destruct (decide (k' = k)) as [->|Hne].
    + injection Hpop as <- <-. split; [left |].
      rewrite filter_cons_False; [| by intros []].
      symmetry. apply filter_Forall_id, Forall_forall.
      intros [k1 v1] Hx Heq. simpl in Heq. subst k1.
      apply Hk'. by apply (list_elem_of_fmap_2 fst _ (k, v1)).
    + destruct (od_pop k d) as [[v1 d1]|] eqn:E; [| done]. simpl in Hpop.
      injection Hpop as <- <-.
      destruct (IH _ _ Hnd eq_refl) as [Hin ->]. split; [by right |].
      by rewrite filter_cons_True.
Qed.

Lemma od_pop_is_Some k (d : OrderedDict) : k ∈ keys d → is_Some (od_pop k d).
Proof.
  intros Hin. destruct (od_pop k d) eqn:E; [done |].
  by apply od_pop_None in E.
Qed.

Lemma od_pop_keys_subseteq k v (d d' : OrderedDict) :
  od_pop k d = Some (v, d') → keys d' ⊆ keys d.
Proof.
  unfold keys. revert v d'. induction d as [|[k' v'] d IH]; intros v d'' Hpop.
  - done.
  - cbn [od_pop] in Hpop. rewrite fmap_cons. cbn [fst].
    destruct (decide (k' = k)) as [->|Hne].
    + injection Hpop as <- <-. intros x Hx. by right.
    + destruct (od_pop k d) as [[v1 d1]|] eqn:E; [| done]. simpl in Hpop.
      injection Hpop as <- <-. rewrite fmap_cons. cbn [fst].
      intros x [->|Hx]%elem_of_cons; [left | right].
      by eapply IH.
Qed.

Lemma keys_filter k (d : OrderedDict) :
  keys (filter (λ p, p.1 ≠ k) d) = filter (λ k', k' ≠ k) (keys d).
Proof.
  unfold keys. induction d as [|[k' v'] d IH]; [done |].
  rewrite fmap_cons. cbn [fst].
  destruct (decide (k' ≠ k)) as [Hne|Heq].
  - rewrite !filter_cons_True by done. rewrite fmap_cons. by f_equal.
  - by rewrite !filter_cons_False by done.
Qed.

(** ** The steps of the emitter *)

Section Properties.

Context {heap : Type}.
Variable body : listener → arguments → @world heap → result value * @world heap.

Implicit Types (w : @world heap) (event : string) (f k h : listener).
Implicit Types (a : arguments) (d : OrderedDict) (v : invocable).

Ltac run :=
  unfold with_lock, events_getitem, events_setitem, events_delitem,
    get_events, set_events, bind, ret, raise; cbn [_events user calls].

Lemma bind_Ok {A B} (m : M A) (k : A → M B) w x w' :
  m w = (Ok x, w') → bind m k w = k x w'.
Proof. unfold bind. by intros ->. Qed.

Lemma _remove_listener_no_event event f w :
  _events w !! event = None →
  _remove_listener event f w = (Raise (KeyError (VStr event)), w).
Proof. intros H. unfold _remove_listener. run. by rewrite H. Qed.

Lemma _remove_listener_no_key event f w d :
  _events w !! event = Some d → f ∉ keys d →
  _remove_listener event f w = (Raise (KeyError (VFun f)), w).
Proof.
  intros H Hf. unfold _remove_listener. run. rewrite H.
  apply od_pop_None in Hf. by rewrite Hf.
Qed.

Lemma _remove_listener_popped event f w d v d' :
  _events w !! event = Some d → od_pop f d = Some (v, d') →
  _remove_listener event f w =
    (Ok tt, World (if bool_decide (d' = []) then delete event (_events w)
                   else <[event := d']> (_events w))
              (user w) (calls w)).
Proof.
  intros H Hpop. unfold _remove_listener. run. rewrite H, Hpop.
  rewrite lookup_insert_eq. destruct d' as [|p d']; simpl.
  - by rewrite lookup_insert_eq, delete_insert_eq.
  - done.
Qed.

Lemma listeners_lookup event w d :
  _events w !! event = Some d → listeners event w = keys d.
Proof. unfold listeners. by intros ->. Qed.

Lemma listeners_elem_lookup event f w :
  f ∈ listeners event w →
  ∃ d, _events w !! event = Some d ∧ f ∈ keys d.
Proof.
  unfold listeners. destruct (_events w !! event) as [d|]; simpl.
  - eauto.
  - by intros ?%elem_of_nil.
Qed.

Lemma snapshot_nil event w :
  listeners event w = [] → values (default [] (_events w !! event)) = [].
Proof. apply values_nil. Qed.

(** Taking out a registered listener: the others stay, in their order. *)
Lemma _remove_listener_registered event f w :
  NoDup (listeners event w) → f ∈ listeners event w →
  ∃ w', _remove_listener event f w = (Ok tt, w') ∧
        listeners event w' = filter (λ k, k ≠ f) (listeners event w) ∧
        user w' = user w ∧ calls w' = calls w.
Proof.
  intros Hnd Hf. destruct (listeners_elem_lookup _ _ _ Hf) as (d & Hd & Hin).
  rewrite (listeners_lookup _ _ _ Hd) in *.
  destruct (od_pop_is_Some _ _ Hin) as [[v d'] Hpop].
  destruct (od_pop_Some _ _ _ _ Hnd Hpop) as [_ Hd'].
  eexists. split; [by eapply _remove_listener_popped |].
  split; [| done]. rewrite <-keys_filter, <-Hd'.
  unfold listeners. cbn [_events]. case_bool_decide as Hnil.
  - by rewrite lookup_delete_eq, Hnil.
  - by rewrite lookup_insert_eq.
Qed.

(** *** The wrapper of [once] *)

Lemma g_unregistered event f a w :
  f ∉ listeners event w → g body event f a w = (Ok VNone, w).
Proof.
  intros Hf. unfold g, od_contains. run.
  fold (listeners event w). rewrite (bool_decide_eq_false_2 _ Hf).
  by rewrite andb_false_r.
Qed.

Lemma g_registered event f a w :
  f ∈ listeners event w →
  ∃ w', _remove_listener event f w = (Ok tt, w') ∧
        g body event f a w = call body f a w'.
Proof.
  intros Hf. destruct (listeners_elem_lookup _ _ _ Hf) as (d & Hd & Hin).
  destruct (od_pop_is_Some _ _ Hin) as [[v d'] Hpop].
  eexists. split; [by eapply _remove_listener_popped |].
  pose proof (_remove_listener_popped _ _ _ _ _ _ Hd Hpop) as Hrm.
  unfold g, with_lock. erewrite bind_Ok; cycle 1.
  - erewrite bind_Ok; [| reflexivity]. cbn beta.
    unfold od_contains. fold (listeners event w).
    rewrite (bool_decide_eq_true_2 _ Hf), andb_true_r.
    rewrite bool_decide_eq_true_2 by (apply elem_of_dom; eauto).
    by erewrite bind_Ok.
  - done.
Qed.

(** *** Dispatch *)

Lemma run_handlers_cons v funcs a b w :
  run_handlers body (v :: funcs) a b w =
    match invoke body v a w with
    | (Ok _, w') => run_handlers body funcs a true w'
    | (Raise e, w') => (Raise e, w')
    end.
Proof.
  cbn [run_handlers]. unfold _emit_run. run.
  by destruct (invoke body v a w) as [[?|?] ?].
Qed.

Lemma run_handlers_true funcs a w b w' :
  run_handlers body funcs a true w = (Ok b, w') → b = true.
Proof.
  revert w. induction funcs as [|v funcs IH]; intros w.
  - cbn. unfold ret. congruence.
  - rewrite run_handlers_cons.
    destruct (invoke body v a w) as [[?|?] w1]; [apply IH | done].
Qed.

Lemma _call_handlers_eq event a w :
  _call_handlers body event a w =
    run_handlers body (values (default [] (_events w !! event))) a false w.
Proof. unfold _call_handlers. by run. Qed.

Lemma emit_eq event a w :
  emit body event a w =
    match _call_handlers body event a w with
    | (Ok true, w') => (Ok true, w')
    | (Ok false, w') =>
        match _emit_handle_potential_error event (first_positional a) w' with
        | (Ok _, w'') => (Ok false, w'')
        | (Raise e, w'') => (Raise e, w'')
        end
    | (Raise e, w') => (Raise e, w')
    end.
Proof.
  unfold emit. run.
  by destruct (_call_handlers body event a w) as [[[]|?] w'].
Qed.

(** *** Registration *)

Lemma _add_event_handler_eq event k v w :
  _add_event_handler body event k v w =
    match emit body "new_listener" (Args [VStr event; VFun k] []) w with
    | (Ok _, w1) => (Ok tt, registered event k v w1)
    | (Raise e, w1) => (Raise e, w1)
    end.
Proof.
  unfold _add_event_handler. unfold bind at 1.
  destruct (emit body _ _ w) as [[b|e] w1]; [| done].
  unfold registered. run. case_bool_decide as Hdom; cbn [_events user calls].
  - apply not_elem_of_dom in Hdom. rewrite Hdom, lookup_insert_eq. cbn.
    by rewrite insert_insert_eq.
  - apply elem_of_dom in Hdom as [d Hd].
    by rewrite Hd.
Qed.

Lemma add_listener_eq event f w :
  add_listener body event f w =
    match emit body "new_listener" (Args [VStr event; VFun f] []) w with
    | (Ok _, w1) => (Ok f, registered event f (Plain f) w1)
    | (Raise e, w1) => (Raise e, w1)
    end.
Proof.
  unfold add_listener, bind. rewrite _add_event_handler_eq.
  by destruct (emit body _ _ w) as [[b|e] w1].
Qed.

Lemma on_eq event f w :
  on body event (Some f) w =
    match emit body "new_listener" (Args [VStr event; VFun f] []) w with
    | (Ok _, w1) => (Ok (Registered f), registered event f (Plain f) w1)
    | (Raise e, w1) => (Raise e, w1)
    end.
Proof.
  unfold on, bind. rewrite add_listener_eq.
  by destruct (emit body _ _ w) as [[b|e] w1].
Qed.

Lemma once_eq event f w :
  once body event (Some f) w =
    match emit body "new_listener" (Args [VStr event; VFun f] []) w with
    | (Ok _, w1) => (Ok (Registered f), registered event f (OnceWrapper event f) w1)
    | (Raise e, w1) => (Raise e, w1)
    end.
Proof.
  unfold once, _wrapper, bind. rewrite _add_event_handler_eq.
  by destruct (emit body _ _ w) as [[b|e] w1].
Qed.

Lemma registered_lookup event k v w :
  _events (registered event k v w) !! event =
    Some (od_set k v (default [] (_events w !! event))).
Proof. apply lookup_insert_eq. Qed.

Lemma registered_lookup_ne event event' k v w :
  event ≠ event' →
  _events (registered event k v w) !! event' = _events w !! event'.
Proof. intros. by apply lookup_insert_ne. Qed.

Lemma listeners_registered event k v w :
  listeners event (registered event k v w) =
    if decide (k ∈ listeners event w) then listeners event w
    else listeners event w ++ [k].
Proof.
  unfold listeners at 1. rewrite registered_lookup. apply keys_od_set.
Qed.

Lemma listeners_registered_ne event event' k v w :
  event ≠ event' →
  listeners event' (registered event k v w) = listeners event' w.
Proof. intros. unfold listeners. by rewrite registered_lookup_ne. Qed.
Lemma invoke_returns v a w :
  (∀ f w0, ∃ x w1, body f a w0 = (Ok x, w1)) →
  ∃ x w', invoke body v a w = (Ok x, w').
Proof.
  intros Hbody. destruct v as [f|event f]; cbn [invoke].
  - apply Hbody.
  - destruct (decide (f ∈ listeners event w)) as [Hin|Hnin].
    + destruct (g_registered event f a w Hin) as (w' & _ & ->). apply Hbody.
    + rewrite g_unregistered by done. eauto.
Qed.

Lemma run_handlers_return funcs a b w :
  (∀ f w0, ∃ x w1, body f a w0 = (Ok x, w1)) →
  ∃ w', run_handlers body funcs a b w =
          (Ok (if funcs is [] then b else true), w').
Proof.
  intros Hbody. revert b w. induction funcs as [|v funcs IH]; intros b w.
  - by eexists.
  - rewrite run_handlers_cons.
    destruct (invoke_returns v a w Hbody) as (x & w1 & ->).
    destruct (IH true w1) as [w' ->]. exists w'. by destruct funcs.
Qed.

(** ** Emitting *)

Lemma emit_unheard event a w :
  listeners event w = [] →
  emit body event a w =
    (if bool_decide (event = "error")
     then Raise (match first_positional a with
                 | VExc e => e
                 | error => PyeeError error
                 end)
     else Ok false, w).
Proof.
  intros Hnone. rewrite emit_eq, _call_handlers_eq, (snapshot_nil _ _ Hnone).
  cbn [run_handlers]. unfold ret, _emit_handle_potential_error.
  case_bool_decide; [| done].
  by destruct (first_positional a).
Qed.

(** C1. With no listener registered for [event], [emit] leaves the emitter
    as it is and returns [False], except for the event ["error"], where it
    raises: the first positional argument when that is an exception, and
    otherwise a [PyeeError] about that argument ([None] when there is
    none). With a listener registered, and listeners that return, [emit]
    returns [True] and raises nothing, also for ["error"]. *)
Theorem emit_without_listeners event a w :
  (listeners event w = [] →
   emit body event a w =
     (if bool_decide (event = "error")
      then Raise (match first_positional a with
                  | VExc e => e
                  | error => PyeeError error
                  end)
      else Ok false, w)) ∧
  (listeners event w ≠ [] →
   (∀ f w0, ∃ x w1, body f a w0 = (Ok x, w1)) →
   ∃ w', emit body event a w = (Ok true, w')).
Proof.
  split.
  - intros Hnone. rewrite emit_eq, _call_handlers_eq, (snapshot_nil _ _ Hnone).
    cbn [run_handlers]. unfold ret, _emit_handle_potential_error.
    case_bool_decide; [| done].
    by destruct (first_positional a).
  - intros Hsome Hbody. rewrite emit_eq, _call_handlers_eq.
    destruct (run_handlers_return (values (default [] (_events w !! event)))
                a false w Hbody) as [w' ->].
    exists w'. unfold listeners in Hsome.
    by destruct (default [] (_events w !! event)).
Qed.

Lemma emit_only_plain event f a w :
  _events w !! event = Some [(f, Plain f)] →
  emit body event a w =
    let '(r, w2) := body f a (World (_events w) (user w) (calls w ++ [(f, a)])) in
    (handled r, w2).
Proof.
  intros Hd. rewrite emit_eq, _call_handlers_eq, Hd.
  change (values _) with [Plain f]. rewrite run_handlers_cons.
  cbn [invoke]. unfold call, record_call.
  by destruct (body f a _) as [[x|e] w2].
Qed.

(** C2. When [on(event, f)] has returned and [f] is the only listener of
    [event], [emit(event, *a)] makes exactly one call, [f] with [a], and
    nothing else: it returns [True] when that call returns, and lets the
    exception of [f] through when it raises. *)
Theorem on_then_emit event f a w w1 :
  on body event (Some f) w = (Ok (Registered f), w1) →
  listeners event w1 = [f] →
  let called := World (_events w1) (user w1) (calls w1 ++ [(f, a)]) in
  emit body event a w1 = (let '(r, w2) := body f a called in (handled r, w2)) ∧
  (∀ x w2, body f a called = (Ok x, w2) → emit body event a w1 = (Ok true, w2)).
Proof.
  rewrite on_eq. destruct (emit body _ _ w) as [[b|e] w0]; [| done].
  intros [= <-] Hl called. unfold listeners in Hl. rewrite registered_lookup in Hl.
  pose proof (elem_of_od_set f (Plain f) (default [] (_events w0 !! event))) as Hin.
  assert (_events (registered event f (Plain f) w0) !! event = Some [(f, Plain f)])
    as Hd.
  { rewrite registered_lookup.
    destruct (od_set _ _ _) as [|[k v] [|? ?]]; try done.
    by apply list_elem_of_singleton in Hin as [= <- <-]. }
  rewrite (emit_only_plain _ _ _ _ Hd). fold called.
  split; [done |]. by intros x w2 ->.
Qed.

(** ** One-shot listeners *)

(** C3, as the code has it. The wrapper that [once(event, f)] stores
    calls nothing when [f] is no longer a listener of [event]; when it is,
    the wrapper first takes [f] out of the registry and then calls [f],
    once, in the world without it. So when [once(event, f)] has returned
    and [f] is the only listener of [event], the first [emit(event, *a)]
    removes [f] (and with it the event, whose collection is empty) and
    calls [f] once with [a]; if the body of [f] leaves no listener under
    [event], a second [emit(event, *a')] calls nothing and changes
    nothing, and it returns [False], except for the event ["error"],
    where it raises as every [emit] of ["error"] without listeners. *)
Theorem once_then_emit_twice event f a :
  (∀ w0, f ∉ listeners event w0 →
     invoke body (OnceWrapper event f) a w0 = (Ok VNone, w0)) ∧
  (∀ w0, f ∈ listeners event w0 → NoDup (listeners event w0) →
     ∃ w', _remove_listener event f w0 = (Ok tt, w') ∧
           (f ∉ listeners event w') ∧
           invoke body (OnceWrapper event f) a w0 = body f a (record_call f a w')) ∧
  (∀ a' w w1,
     once body event (Some f) w = (Ok (Registered f), w1) →
     listeners event w1 = [f] →
     let fired :=
       World (delete event (_events w1)) (user w1) (calls w1 ++ [(f, a)]) in
     listeners event fired = [] ∧
     emit body event a w1 = (let '(r, w2) := body f a fired in (handled r, w2)) ∧
     (∀ r w2, body f a fired = (r, w2) → listeners event w2 = [] →
        emit body event a' w2 =
          (if bool_decide (event = "error")
           then Raise (match first_positional a' with
                       | VExc e => e
                       | error => PyeeError error
                       end)
           else Ok false, w2))).
Proof.
  split; [| split].
  - intros w0 Hf. by apply g_unregistered.
  - intros w0 Hf Hnd.
    destruct (_remove_listener_registered event f w0 Hnd Hf) as (w' & Hrm & Hl & _).
    destruct (g_registered event f a w0 Hf) as (w'' & Hrm' & Hg).
    rewrite Hrm in Hrm'. injection Hrm' as <-.
    exists w'. split; [done |]. split; [| done].
    rewrite Hl. intros Hin. by apply list_elem_of_filter in Hin as [Hne _].
  - intros a' w w1. rewrite once_eq.
    destruct (emit body _ _ w) as [[b|e] w0]; [| done].
    intros [= <-] Hl fired. split; [| split].
    + unfold listeners, fired. cbn [_events]. by rewrite lookup_delete_eq.
    + pose proof (registered_lookup event f (OnceWrapper event f) w0) as Hd.
      pose proof (elem_of_od_set f (OnceWrapper event f)
                    (default [] (_events w0 !! event))) as Hin.
      unfold listeners in Hl. rewrite Hd in Hl.
      rewrite emit_eq, _call_handlers_eq, Hd.
      destruct (od_set _ _ _) as [|[k v] [|? ?]]; try done.
      apply list_elem_of_singleton in Hin as [= <- <-].
      change (values _) with [OnceWrapper event f]. rewrite run_handlers_cons.
      cbn [invoke].
      assert (f ∈ listeners event (registered event f (OnceWrapper event f) w0))
        as Hf by (unfold listeners; rewrite Hd; left).
      destruct (g_registered event f a _ Hf) as (w' & Hrm & ->).
      rewrite (_remove_listener_popped _ _ _ _ (OnceWrapper event f) [] Hd) in Hrm;
        cycle 1.
      { cbn [od_pop]. by rewrite decide_True. }
      injection Hrm as Hw. subst w'.
      change (call body f a _) with (body f a fired).
      by destruct (body f a fired) as [[x|e] w2].
    + intros r w2 _ Hnone. by apply emit_unheard.
Qed.

(** ** Removal *)

(** The paths that take listeners out one by one, put them in, or clear
    the whole registry keep [no_empty_collection]. *)
Lemma registered_no_empty event k v w :
  no_empty_collection (_events w) →
  no_empty_collection (_events (registered event k v w)).
Proof.
  intros Hinv event' d. unfold registered. cbn [_events].
  rewrite lookup_insert. case_decide as Heq.
  - intros [= <-] Hnil.
    pose proof (elem_of_od_set k v (default [] (_events w !! event))) as Hin.
    rewrite Hnil in Hin. by apply elem_of_nil in Hin.
  - apply Hinv.
Qed.

Lemma _remove_listener_no_empty event f w r w' :
  no_empty_collection (_events w) →
  _remove_listener event f w = (r, w') →
  no_empty_collection (_events w').
Proof.
  intros Hinv. destruct (_events w !! event) as [d|] eqn:Hd.
  - destruct (od_pop f d) as [[v d']|] eqn:Hpop.
    + rewrite (_remove_listener_popped _ _ _ _ _ _ Hd Hpop). intros [= <- <-].
      intros event' d''. cbn [_events]. case_bool_decide as Hnil.
      * rewrite lookup_delete. case_decide; [done | apply Hinv].
      * rewrite lookup_insert. case_decide; [congruence | apply Hinv].
    + apply od_pop_None in Hpop.
      rewrite (_remove_listener_no_key _ _ _ _ Hd Hpop). by intros [= <- <-].
  - rewrite (_remove_listener_no_event _ _ _ Hd). by intros [= <- <-].
Qed.

Lemma remove_all_listeners_None_no_empty w r w' :
  remove_all_listeners None w = (r, w') → no_empty_collection (_events w').
Proof. intros [= <- <-] event d. cbn [_events]. by rewrite lookup_empty. Qed.

Lemma event_names_no_empty event w :
  no_empty_collection (_events w) →
  event ∈ event_names w ↔ listeners event w ≠ [].
Proof.
  intros Hinv. unfold event_names, listeners. rewrite elem_of_dom.
  destruct (_events w !! event) as [d|] eqn:Hd; cbn.
  - split; [| by eauto]. intros _ ?%keys_nil_inv. by eapply Hinv.
  - split; [by intros [? ?] | done].
Qed.


(** Taking out the last listener of an event deletes its key. *)
Lemma remove_listener_registered event f w :
  NoDup (listeners event w) → f ∈ listeners event w →
  ∃ w', remove_listener event f w = (Ok tt, w') ∧
        listeners event w' = filter (λ k, k ≠ f) (listeners event w) ∧
        (listeners event w' = [] → event ∉ event_names w').
Proof.
  intros Hnd Hf. destruct (listeners_elem_lookup _ _ _ Hf) as (d & Hd & Hin).
  destruct (od_pop_is_Some _ _ Hin) as [[v d'] Hpop].
  destruct (_remove_listener_registered event f w Hnd Hf) as (w' & Hrm & Hl & _).
  exists w'. split; [done |]. split; [done |].
  rewrite (_remove_listener_popped _ _ _ _ _ _ Hd Hpop) in Hrm.
  injection Hrm as <-. unfold listeners, event_names. cbn [_events].
  case_bool_decide as Hnil.
  - intros _. apply not_elem_of_dom, lookup_delete_eq.
  - rewrite lookup_insert_eq. by intros ?%keys_nil_inv.
Qed.

(** C4 at its failing input. [remove_all_listeners(event)] keeps the key
    [event], or makes it, with an empty collection for its value: the
    registry it leaves breaks [no_empty_collection]. *)
Theorem remove_all_listeners_keeps_key event w :
  ∃ w', remove_all_listeners (Some event) w = (Ok tt, w') ∧
        _events w' !! event = Some [] ∧
        ¬ no_empty_collection (_events w').
Proof.
  eexists. split; [reflexivity |]. cbn [_events].
  split; [apply lookup_insert_eq |].
  intros Hinv. by eapply Hinv; [apply lookup_insert_eq |].
Qed.

(** C5 at its failing input. After [remove_all_listeners(event)] the event
    has no listener and [event_names()] still lists it. *)
Theorem event_names_after_remove_all_listeners event w :
  ∃ w', remove_all_listeners (Some event) w = (Ok tt, w') ∧
        listeners event w' = [] ∧ event ∈ event_names w'.
Proof.
  eexists. split; [reflexivity |]. unfold listeners, event_names.
  cbn [_events]. rewrite lookup_insert_eq. split; [done |].
  apply elem_of_dom. rewrite lookup_insert_eq. by eexists.
Qed.

(** C6. [remove_listener(event, f)] for a listener that is not registered
    under [event] raises [KeyError], of [event] when the registry has no
    such key and of [f] otherwise, and leaves the emitter as it was. *)
Theorem remove_listener_unregistered event f w :
  f ∉ listeners event w →
  remove_listener event f w =
    (Raise (KeyError (if bool_decide (event ∈ event_names w)
                      then VFun f else VStr event)), w).
Proof.
  intros Hf. unfold remove_listener, with_lock, event_names.
  destruct (_events w !! event) as [d|] eqn:Hd.
  - rewrite bool_decide_eq_true_2 by (apply elem_of_dom; eauto).
    eapply _remove_listener_no_key; [done |].
    by rewrite <-(listeners_lookup _ _ _ Hd).
  - rewrite bool_decide_eq_false_2 by (by apply not_elem_of_dom).
    by apply _remove_listener_no_event.
Qed.

(** ** Registering *)

Lemma notify_unheard event f w :
  listeners "new_listener" w = [] →
  emit body "new_listener" (Args [VStr event; VFun f] []) w = (Ok false, w).
Proof. intros Hnone. by rewrite emit_unheard. Qed.

Lemma registered_same event k v w d :
  _events w !! event = Some d → NoDup (keys d) → (k, v) ∈ d →
  registered event k v w = w.
Proof.
  intros Hd Hnd Hin. unfold registered. rewrite Hd. cbn [default from_option id].
  rewrite od_set_same by done. rewrite insert_id by done. by destruct w.
Qed.

Lemma registered_first event k v w :
  listeners event w = [] →
  _events (registered event k v w) !! event = Some [(k, v)].
Proof.
  intros Hnone%keys_nil_inv. rewrite registered_lookup. by rewrite Hnone.
Qed.

(** C7. When [f] is registered with [on] under [event], at position [i],
    and the handlers of ["new_listener"] leave the collection of [event]
    as it is, a second [on(event, f)] stores nothing new: the emitter is as
    the notification left it, with [f] at position [i] and nowhere else.
    Registered twice in a row as the only listener of [event], [f] is
    called exactly once by [emit(event, *a)]. *)
Theorem on_again_keeps_position event f a w :
  (∀ b w1 d i,
     emit body "new_listener" (Args [VStr event; VFun f] []) w = (Ok b, w1) →
     _events w1 !! event = Some d →
     NoDup (keys d) →
     d !! i = Some (f, Plain f) →
     on body event (Some f) w = (Ok (Registered f), w1) ∧
     listeners event w1 !! i = Some f ∧
     (∀ j, listeners event w1 !! j = Some f → j = i)) ∧
  (listeners "new_listener" w = [] →
   event ≠ "new_listener" →
   listeners event w = [] →
   ∃ w1,
     on body event (Some f) w = (Ok (Registered f), w1) ∧
     on body event (Some f) w1 = (Ok (Registered f), w1) ∧
     listeners event w1 = [f] ∧
     emit body event a w1 =
       let '(r, w2) := body f a (World (_events w1) (user w1) (calls w1 ++ [(f, a)])) in
       (handled r, w2)).
Proof.
  split.
  - intros b w1 d i Hemit Hd Hnd Hi.
    assert (keys d !! i = Some f) as Hki.
    { unfold keys. by rewrite list_lookup_fmap, Hi. }
    rewrite on_eq, Hemit, (listeners_lookup _ _ _ Hd).
    split; [| split; [done |]].
    + f_equal. eapply registered_same; [done.. |].
      by eapply list_elem_of_lookup_2.
    + intros j Hj. by eapply NoDup_lookup.
  - intros Hnl Hne Hnone. eexists. split; [| split; [| split]].
    + by rewrite on_eq, notify_unheard.
    + rewrite on_eq, notify_unheard
        by (by rewrite listeners_registered_ne).
      f_equal. eapply registered_same.
      * by apply registered_first.
      * apply NoDup_singleton.
      * left.
    + by rewrite (listeners_lookup _ _ _ (registered_first _ _ _ _ Hnone)).
    + apply emit_only_plain. by apply registered_first.
Qed.

(** Taking a listener out registers nothing. *)
Lemma _remove_listener_listeners event f w r w' event' :
  _remove_listener event f w = (r, w') →
  listeners event' w' ⊆ listeners event' w.
Proof.
  destruct (_events w !! event) as [d|] eqn:Hd.
  - destruct (od_pop f d) as [[v d']|] eqn:Hpop.
    + rewrite (_remove_listener_popped _ _ _ _ _ _ Hd Hpop). intros [= <- <-].
      unfold listeners. cbn [_events]. case_bool_decide as Hnil.
      * rewrite lookup_delete. case_decide; [| done].
        intros x ?%elem_of_nil. done.
      * rewrite lookup_insert. case_decide as Heq; [| done].
        subst event'. rewrite Hd. by eapply od_pop_keys_subseteq.
    + apply od_pop_None in Hpop.
      rewrite (_remove_listener_no_key _ _ _ _ Hd Hpop). by intros [= <- <-].
  - rewrite (_remove_listener_no_event _ _ _ Hd). by intros [= <- <-].
Qed.

(** The world in which a stored callable runs the body of its listener, if
    it runs it at all: the log has the call, and nothing is registered
    that was not. *)
Lemma invoke_observes v a w :
  invoke body v a w = (Ok VNone, w) ∨
  ∃ h seen,
    invoke body v a w = body h a seen ∧
    calls seen = calls w ++ [(h, a)] ∧
    ∀ event, listeners event seen ⊆ listeners event w.
Proof.
  destruct v as [h|event h]; cbn [invoke].
  - right. by exists h, (record_call h a w).
  - destruct (decide (h ∈ listeners event w)) as [Hin|Hnin].
    + right. destruct (g_registered event h a w Hin) as (w' & Hrm & ->).
      exists h, (record_call h a w'). split; [done |].
      assert (calls w' = calls w) as Hcalls.
      { destruct (listeners_elem_lookup _ _ _ Hin) as (d & Hd & Hk).
        destruct (od_pop_is_Some _ _ Hk) as [[v d'] Hpop].
        rewrite (_remove_listener_popped _ _ _ _ _ _ Hd Hpop) in Hrm.
        by injection Hrm as <-. }
      split; [unfold record_call; cbn [calls]; congruence |].
      intros event'.
      change (listeners event' (record_call h a w')) with (listeners event' w').
      by eapply _remove_listener_listeners.
    + left. by apply g_unregistered.
Qed.

(** ** Introspection *)

Lemma register_all_order event (fs : list (bool * listener)) w :
  listeners "new_listener" w = [] →
  event ≠ "new_listener" →
  NoDup (listeners event w ++ fs.*2) →
  ∃ w', register_all body event fs w = (Ok tt, w') ∧
        listeners event w' = listeners event w ++ fs.*2.
Proof.
  revert w. induction fs as [|[one_shot f] fs IH]; intros w Hnl Hne Hnd.
  - exists w. by rewrite app_nil_r.
  - rewrite fmap_cons in *. cbn [snd] in *.
    assert (f ∉ listeners event w) as Hf.
    { apply NoDup_app in Hnd as (_ & Hdisj & _). intros Hin.
      apply (Hdisj f Hin). left. }
    set (v := if one_shot then OnceWrapper event f else Plain f).
    assert ((if one_shot then once else on) body event (Some f) w
            = (Ok (Registered f), registered event f v w)) as Hreg.
    { destruct one_shot; [rewrite once_eq | rewrite on_eq];
        by rewrite notify_unheard. }
    destruct (IH (registered event f v w)) as (w' & Hrest & Hl).
    + by rewrite listeners_registered_ne.
    + done.
    + rewrite listeners_registered, decide_False by done.
      by rewrite <-app_assoc.
    + exists w'. cbn [register_all]. rewrite (bind_Ok _ _ _ _ _ Hreg).
      split; [done |].
      rewrite Hl, listeners_registered, decide_False by done.
      by rewrite <-app_assoc.
Qed.

(** C9. [listeners(event)] is the list of the keys of the collection of
    [event], and the empty list when there is none. A registration of [f]
    with [on] or with [once] puts [f] itself at the end of that list, or
    leaves the list as it is when [f] is in it; [once] stores its wrapper as
    the value of the key [f]. Listeners registered one after the other
    are listed in the order of their registrations. *)
Theorem listeners_registration_order event w :
  (_events w !! event = None → listeners event w = []) ∧
  (∀ f b w1,
     emit body "new_listener" (Args [VStr event; VFun f] []) w = (Ok b, w1) →
     ∃ w2 w3,
       on body event (Some f) w = (Ok (Registered f), w2) ∧
       once body event (Some f) w = (Ok (Registered f), w3) ∧
       listeners event w2 =
         (if decide (f ∈ listeners event w1) then listeners event w1
          else listeners event w1 ++ [f]) ∧
       listeners event w3 = listeners event w2 ∧
       (f, OnceWrapper event f) ∈ default [] (_events w3 !! event)) ∧
  (∀ fs : list (bool * listener),
     listeners "new_listener" w = [] →
     event ≠ "new_listener" →
     NoDup (listeners event w ++ fs.*2) →
     ∃ w', register_all body event fs w = (Ok tt, w') ∧
           listeners event w' = listeners event w ++ fs.*2).
Proof.
  split; [| split].
  - unfold listeners. by intros ->.
  - intros f b w1 Hemit. eexists _, _.
    rewrite on_eq, once_eq, Hemit. split; [done |]. split; [done |].
    rewrite !listeners_registered. split; [done |]. split; [done |].
    rewrite registered_lookup. apply elem_of_od_set.
  - intros fs. apply register_all_order.
Qed.

(** ** A handler of ["new_listener"] that raises *)

Lemma run_handlers_plain_events funcs a b w :
  (∀ v, v ∈ funcs → ∃ h, v = Plain h) →
  (∀ h w0, _events (body h a w0).2 = _events w0) →
  _events (run_handlers body funcs a b w).2 = _events w.
Proof.
  intros Hplain Hbody. revert b w.
  induction funcs as [|v funcs IH]; intros b w; [done |].
  rewrite run_handlers_cons.
  destruct (Hplain v) as [h ->]; [left |]. cbn [invoke]. unfold call.
  pose proof (Hbody h (record_call h a w)) as Hh.
  destruct (body h a (record_call h a w)) as [[x|e] w']; cbn [snd] in *.
  - rewrite IH; [done |]. intros v' Hv'. apply Hplain. by right.
  - done.
Qed.

(** An exception out of the loop is the exception of a listener. *)
Lemma run_handlers_raise_inv funcs a b w e w1 :
  run_handlers body funcs a b w = (Raise e, w1) →
  ∃ h seen, body h a seen = (Raise e, w1).
Proof.
  revert b w. induction funcs as [|v funcs IH]; intros b w; [done |].
  rewrite run_handlers_cons.
  destruct (invoke_observes v a w) as [->|(h & seen & -> & _)].
  - apply IH.
  - destruct (body h a seen) as [[x|e'] w'] eqn:Hh.
    + apply IH.
    + intros [= <- <-]. eauto.
Qed.

(** C10, as the code has it. The emission of ["new_listener"] raises only
    what a handler has raised, and when it raises during [on],
    [add_listener] or [once], the registration raises the same exception
    and stores nothing: the emitter is as the emission left it. That is
    the registry from before the call when the callables stored for
    ["new_listener"] are plain listeners, put there by [on], whose bodies
    do not change the registry. *)
Theorem registration_fails_with_handler event f w e w1 :
  emit body "new_listener" (Args [VStr event; VFun f] []) w = (Raise e, w1) →
  (∃ h seen, body h (Args [VStr event; VFun f] []) seen = (Raise e, w1)) ∧
  (on body event (Some f) w = (Raise e, w1) ∧
   add_listener body event f w = (Raise e, w1) ∧
   once body event (Some f) w = (Raise e, w1)) ∧
  ((∀ v, v ∈ values (default [] (_events w !! "new_listener")) → ∃ h, v = Plain h) →
   (∀ h w0, _events (body h (Args [VStr event; VFun f] []) w0).2 = _events w0) →
   _events w1 = _events w).
Proof.
  intros Hemit. split; [| split].
  - rewrite emit_eq, _call_handlers_eq in Hemit.
    destruct (run_handlers body _ _ false w) as [[[]|e'] w'] eqn:Hrun; [done | |].
    + unfold _emit_handle_potential_error in Hemit.
      by rewrite bool_decide_eq_false_2 in Hemit.
    + injection Hemit as <- <-. by eapply run_handlers_raise_inv.
  - by rewrite on_eq, add_listener_eq, once_eq, Hemit.
  - intros Hplain Hbody.
    pose proof (run_handlers_plain_events _ _ false w Hplain Hbody) as Hev.
    rewrite emit_eq, _call_handlers_eq in Hemit.
    destruct (run_handlers body _ _ false w) as [[[]|e'] w'];
      cbn [snd] in Hev; [done | | congruence].
    unfold _emit_handle_potential_error in Hemit.
    rewrite bool_decide_eq_false_2 in Hemit by done. done.
Qed.
End Properties.

(** * Further properties *)

(** ** More of OrderedDict *)

Lemma elem_of_od_set_inv k v k' v' (d : OrderedDict) :
  (k', v') ∈ od_set k v d → (k', v') = (k, v) ∨ (k', v') ∈ d.
Proof.
  induction d as [|[k1 v1] d IH]; cbn [od_set].
  - intros ->%list_elem_of_singleton. by left.
  - destruct (decide (k1 = k)) as [->|Hne].
    + intros [->|Hin]%elem_of_cons; [by left | right; by right].
    + intros [->|Hin]%elem_of_cons; [right; left |].
      destruct (IH Hin) as [?|?]; [by left | right; by right].
Qed.

Lemma wf_collection_nil event : wf_collection event [].
Proof. split; [apply NoDup_nil_2 | by intros k v ?%elem_of_nil]. Qed.

Lemma wf_collection_od_set event k v (d : OrderedDict) :
  v = Plain k ∨ v = OnceWrapper event k →
  wf_collection event d → wf_collection event (od_set k v d).
Proof.
  intros Hv [Hnd Hshape]. split.
  - rewrite keys_od_set. case_decide as Hin; [done |].
    apply NoDup_app. split; [done |]. split; [| apply NoDup_singleton].
    intros x Hx ->%list_elem_of_singleton. done.
  - intros k' v' [[= -> ->]|Hin]%elem_of_od_set_inv; [done | by apply Hshape].
Qed.

Lemma wf_collection_filter event (P : listener * invocable → Prop)
    `{!∀ p, Decision (P p)} (d : OrderedDict) :
  wf_collection event d → wf_collection event (filter P d).
Proof.
  intros [Hnd Hshape]. split.
  - unfold keys in *. eapply sublist_NoDup; [exact Hnd |].
    by apply fmap_sublist, sublist_filter.
  - intros k v [_ Hin]%list_elem_of_filter. by apply Hshape.
Qed.

Lemma filter_ext_in {A} (P Q : A → Prop) `{!∀ x, Decision (P x)}
    `{!∀ x, Decision (Q x)} (l : list A) :
  (∀ x, x ∈ l → P x ↔ Q x) → filter P l = filter Q l.
Proof.
  induction l as [|x l IH]; intros Hext; [done |].
  rewrite !filter_cons, IH by (intros y Hy; apply Hext; by right).
  destruct (decide (P x)) as [HP|HP], (decide (Q x)) as [HQ|HQ]; try done.
  - exfalso. apply HQ, Hext; [left | done].
  - exfalso. apply HP, Hext; [left | done].
Qed.

Lemma filter_key_ne k (d : OrderedDict) :
  k ∉ keys d → filter (λ p, p.1 ≠ k) d = d.
Proof.
  intros Hk. apply filter_Forall_id, Forall_forall. intros [k' v'] Hin Heq.
  simpl in Heq. subst k'. apply Hk. by apply (list_elem_of_fmap_2 fst _ (k, v')).
Qed.

(** What a dispatch that has called [k] and then [cs] leaves of a
    collection that begins with [k]. *)
Lemma filter_called_cons k v cs (d : OrderedDict) :
  k ∉ keys d →
  filter (λ p, ¬ (is_once p.2 = true ∧ p.1 ∈ k :: cs)) ((k, v) :: d) =
  filter (λ p, is_once p.2 = false) [(k, v)] ++
  filter (λ p, ¬ (is_once p.2 = true ∧ p.1 ∈ cs)) d.
Proof.
  intros Hk. rewrite (filter_cons _ (k, v)), (filter_cons _ (k, v) []), filter_nil.
  assert (filter (λ p, ¬ (is_once p.2 = true ∧ p.1 ∈ k :: cs)) d =
          filter (λ p, ¬ (is_once p.2 = true ∧ p.1 ∈ cs)) d) as ->.
  { apply filter_ext_in. intros [k' v'] Hin. cbn [fst snd].
    assert (k' ≠ k) as Hne.
    { intros ->. apply Hk. by apply (list_elem_of_fmap_2 fst _ (k, v')). }
    rewrite elem_of_cons. split; intros Hn [Ho Hin']; apply Hn; split; try done.
    - by right.
    - by destruct Hin'. }
  cbn [fst snd]. destruct v as [f|event f]; cbn [is_once].
  - rewrite decide_True by (by intros [? _]). by rewrite decide_True.
  - rewrite decide_False by (intros H; apply H; split; [done | left]).
    by rewrite decide_False.
Qed.

Lemma called_until_raise_none (raises : listener → option exn) fs :
  Forall (λ f, raises f = None) fs → called_until_raise raises fs = (fs, None).
Proof.
  induction 1 as [|f fs Hf _ IH]; [done |].
  cbn [called_until_raise]. by rewrite Hf, IH.
Qed.

Lemma called_until_raise_first (raises : listener → option exn) pre f e post :
  Forall (λ g, raises g = None) pre → raises f = Some e →
  called_until_raise raises (pre ++ f :: post) = (pre ++ [f], Some e).
Proof.
  intros Hpre Hf. induction Hpre as [|g pre Hg _ IH]; cbn [called_until_raise app].
  - by rewrite Hf.
  - by rewrite Hg, IH.
Qed.

Lemma od_pop_od_set k v (d : OrderedDict) :
  k ∉ keys d → od_pop k (od_set k v d) = Some (v, d).
Proof.
  unfold keys. induction d as [|[k' v'] d IH]; intros Hk.
  - cbn. by rewrite decide_True.
  - rewrite fmap_cons, not_elem_of_cons in Hk. destruct Hk as [Hne Hk].
    cbn [od_set fst] in *. rewrite decide_False by done.
    cbn [od_pop]. rewrite decide_False by done. by rewrite IH.
Qed.

(** [d[k] = v] for a key that is there writes at its position. *)
Lemma od_set_insert k v i (d : OrderedDict) :
  NoDup (keys d) → keys d !! i = Some k → od_set k v d = <[i := (k, v)]> d.
Proof.
  unfold keys. revert i. induction d as [|[k' v'] d IH]; intros i Hnd Hi; [done |].
  rewrite fmap_cons in *. cbn [fst od_set] in *.
  apply NoDup_cons in Hnd as [Hk' Hnd]. destruct i as [|i]; cbn in Hi.
  - injection Hi as ->. by rewrite decide_True.
  - rewrite decide_False; [cbn; f_equal; by apply IH |].
    intros ->. apply Hk'. by eapply list_elem_of_lookup_2.
Qed.

Lemma well_formed_empty : well_formed ∅.
Proof. intros event d. by rewrite lookup_empty. Qed.

Lemma no_empty_collection_empty : no_empty_collection ∅.
Proof. intros event d. by rewrite lookup_empty. Qed.

Section Further.

Context {heap : Type}.
Variable body : listener → arguments → @world heap → result value * @world heap.

Implicit Types (w : @world heap) (event : string) (f k h : listener).
Implicit Types (a : arguments) (d : OrderedDict) (v : invocable).

(** ** What every call keeps *)

(** A property of the registry that the steps of the emitter keep is kept
    by a dispatch, when the listeners keep it. *)
Lemma run_handlers_keeps (P : registry → Prop) funcs a b w :
  (∀ f w0, P (_events w0) → P (_events (body f a w0).2)) →
  (∀ event f w0 r w', P (_events w0) →
     _remove_listener event f w0 = (r, w') → P (_events w')) →
  P (_events w) → P (_events (run_handlers body funcs a b w).2).
Proof.
  intros Hbody Hrm. revert b w.
  induction funcs as [|v funcs IH]; intros b w Hw; [done |].
  rewrite run_handlers_cons.
  assert (P (_events (invoke body v a w).2)) as Hv.
  { destruct v as [f|event f]; cbn [invoke].
    - unfold call. apply Hbody. exact Hw.
    - destruct (decide (f ∈ listeners event w)) as [Hin|Hnin].
      + destruct (g_registered body event f a w Hin) as (w' & Hw' & ->).
        unfold call. apply Hbody. cbn [record_call _events]. by eapply Hrm.
      + by rewrite g_unregistered. }
  destruct (invoke body v a w) as [[x|e] w1]; cbn [snd] in *; [by apply IH | done].
Qed.

Lemma emit_keeps (P : registry → Prop) event a w :
  (∀ f w0, P (_events w0) → P (_events (body f a w0).2)) →
  (∀ event f w0 r w', P (_events w0) →
     _remove_listener event f w0 = (r, w') → P (_events w')) →
  P (_events w) → P (_events (emit body event a w).2).
Proof.
  intros Hbody Hrm Hw.
  pose proof (run_handlers_keeps P (values (default [] (_events w !! event)))
                a false w Hbody Hrm Hw) as Hrun.
  rewrite emit_eq, _call_handlers_eq.
  destruct (run_handlers body _ a false w) as [[[]|e] w1]; cbn [snd] in *; try done.
  unfold _emit_handle_potential_error, ret, raise.
  case_bool_decide; [by destruct (first_positional a) | done].
Qed.

Lemma perform_keeps (P : registry → Prop) o w :
  (∀ f a w0, P (_events w0) → P (_events (body f a w0).2)) →
  (∀ event f w0 r w', P (_events w0) →
     _remove_listener event f w0 = (r, w') → P (_events w')) →
  (∀ event k v w0, v = Plain k ∨ v = OnceWrapper event k →
     P (_events w0) → P (_events (registered event k v w0))) →
  P ∅ →
  (clears_one_event o = false ∨ ∀ ev event, P ev → P (<[event := []]> ev)) →
  P (_events w) → P (_events (perform body o w)).
Proof.
  intros Hbody Hrm Hreg Hempty Hclear Hw.
  assert (∀ event f, P (_events
            (emit body "new_listener" (Args [VStr event; VFun f] []) w).2)) as Hnl.
  { intros event f. apply emit_keeps; [intros; by apply Hbody | apply Hrm | done]. }
  destruct o as [event f|event f|event a|event f|[event|]]; cbn [perform].
  - rewrite on_eq. specialize (Hnl event f).
    destruct (emit body _ _ w) as [[b|e] w1]; cbn [snd] in *; [| done].
    apply Hreg; [by left | done].
  - rewrite once_eq. specialize (Hnl event f).
    destruct (emit body _ _ w) as [[b|e] w1]; cbn [snd] in *; [| done].
    apply Hreg; [by right | done].
  - apply emit_keeps; [intros; by apply Hbody | apply Hrm | done].
  - unfold remove_listener, with_lock.
    destruct (_remove_listener event f w) as [r w'] eqn:E. by eapply Hrm.
  - destruct Hclear as [[=]|Hclear]. by apply Hclear.
  - done.
Qed.

Lemma well_formed_registered event k v w :
  v = Plain k ∨ v = OnceWrapper event k →
  well_formed (_events w) → well_formed (_events (registered event k v w)).
Proof.
  intros Hv Hw event' d. unfold registered. cbn [_events].
  rewrite lookup_insert. case_decide as Heq; [| apply Hw].
  intros [= <-]. subst event'. apply wf_collection_od_set; [done |].
  destruct (_events w !! event) as [d|] eqn:Hd; [by eapply Hw |].
  apply wf_collection_nil.
Qed.

Lemma well_formed__remove_listener event f w r w' :
  well_formed (_events w) →
  _remove_listener event f w = (r, w') → well_formed (_events w').
Proof.
  intros Hw. destruct (_events w !! event) as [d|] eqn:Hd.
  - destruct (od_pop f d) as [[v d']|] eqn:Hpop.
    + rewrite (_remove_listener_popped _ _ _ _ _ _ Hd Hpop). intros [= <- <-].
      destruct (od_pop_Some _ _ _ _ (proj1 (Hw _ _ Hd)) Hpop) as [_ ->].
      intros event' d''. cbn [_events]. case_bool_decide as Hnil.
      * rewrite lookup_delete. case_decide; [done | apply Hw].
      * rewrite lookup_insert. case_decide as Heq; [| apply Hw].
        intros [= <-]. subst event'. apply wf_collection_filter. by eapply Hw.
    + apply od_pop_None in Hpop.
      rewrite (_remove_listener_no_key _ _ _ _ Hd Hpop). by intros [= <- <-].
  - rewrite (_remove_listener_no_event _ _ _ Hd). by intros [= <- <-].
Qed.

(** X1. Whatever calls a user makes, returning or raising, the registry
    stays well formed when the bodies of the listeners keep it so: under
    every event each listener is a key once, and the callable stored for
    it is the listener itself or its own wrapper for that event. *)
Theorem perform_all_well_formed os w :
  (∀ f a w0, well_formed (_events w0) → well_formed (_events (body f a w0).2)) →
  well_formed (_events w) →
  well_formed (_events (perform_all body os w)).
Proof.
  intros Hbody. revert w. induction os as [|o os IH]; intros w Hw; [done |].
  cbn [perform_all foldl]. apply IH.
  apply (perform_keeps well_formed); try done.
  - apply well_formed__remove_listener.
  - apply well_formed_registered.
  - right. intros ev event Hev event' d. rewrite lookup_insert.
    case_decide; [| apply Hev]. intros [= <-]. apply wf_collection_nil.
Qed.

(** X2. As long as the user does not call [remove_all_listeners] with an
    event, and the bodies of the listeners keep the registry free of empty
    collections, [event_names()] is exactly the set of the events that
    have a listener. *)
Theorem event_names_exact os w event :
  (∀ f a w0, no_empty_collection (_events w0) →
     no_empty_collection (_events (body f a w0).2)) →
  Forall (λ o, clears_one_event o = false) os →
  no_empty_collection (_events w) →
  event ∈ event_names (perform_all body os w)
  ↔ listeners event (perform_all body os w) ≠ [].
Proof.
  intros Hbody Hos Hw. apply event_names_no_empty.
  revert w Hw. induction Hos as [|o os Ho _ IH]; intros w Hw; [done |].
  cbn [perform_all foldl]. apply IH.
  apply (perform_keeps no_empty_collection); try done.
  - intros event' f w0 r w'. apply _remove_listener_no_empty.
  - intros event' k v w0 _. apply registered_no_empty.
  - by left.
Qed.

(** ** Dispatch to listeners that leave the emitter alone *)

Lemma _remove_listener_collection event k w (c : OrderedDict) :
  _events w !! event = Some c → NoDup (keys c) → k ∈ keys c →
  ∃ w', _remove_listener event k w = (Ok tt, w') ∧
        default [] (_events w' !! event) = filter (λ p, p.1 ≠ k) c ∧
        (∀ event', event' ≠ event → _events w' !! event' = _events w !! event') ∧
        user w' = user w ∧ calls w' = calls w.
Proof.
  intros Hc Hnd Hin. destruct (od_pop_is_Some _ _ Hin) as [[v c'] Hpop].
  destruct (od_pop_Some _ _ _ _ Hnd Hpop) as [_ Hc'].
  eexists. split; [by eapply _remove_listener_popped |]. cbn [_events user calls].
  split; [| split; [| done]].
  - case_bool_decide as Hnil.
    + by rewrite lookup_delete_eq, <-Hc', Hnil.
    + by rewrite lookup_insert_eq, Hc'.
  - intros event' Hne. case_bool_decide.
    + by rewrite lookup_delete_ne.
    + by rewrite lookup_insert_ne.
Qed.

Lemma run_handlers_leaf event a (raises : listener → option exn) :
  (∀ f w0, ∃ x hp,
     body f a w0 =
       (match raises f with Some e => Raise e | None => Ok x end,
        World (_events w0) hp (calls w0))) →
  ∀ d2 d1 w b,
    wf_collection event (d1 ++ d2) →
    default [] (_events w !! event) = filter (λ p, is_once p.2 = false) d1 ++ d2 →
    ∃ w',
      run_handlers body (values d2) a b w =
        (match (called_until_raise raises (keys d2)).2 with
         | Some e => Raise e
         | None => Ok (if d2 is [] then b else true)
         end, w') ∧
      calls w' =
        calls w ++ ((λ f, (f, a)) <$> (called_until_raise raises (keys d2)).1) ∧
      default [] (_events w' !! event) =
        filter (λ p, is_once p.2 = false) d1 ++
        filter (λ p, ¬ (is_once p.2 = true ∧
                        p.1 ∈ (called_until_raise raises (keys d2)).1)) d2 ∧
      ∀ event', event' ≠ event → _events w' !! event' = _events w !! event'.
Proof.
  intros Hleaf d2. induction d2 as [|[k v] d2 IH]; intros d1 w b Hwf Hc.
  { exists w. cbn. rewrite app_nil_r. done. }
  pose proof Hwf as [Hnd Hshape].
  assert (v = Plain k ∨ v = OnceWrapper event k) as Hv.
  { apply Hshape. rewrite elem_of_app. right. left. }
  unfold keys in Hnd. rewrite fmap_app, fmap_cons in Hnd. cbn [fst] in Hnd.
  apply NoDup_app in Hnd as (Hnd1 & Hdisj & [Hk2 Hnd2]%NoDup_cons).
  assert (k ∉ keys d1) as Hk1.
  { intros Hin. apply (Hdisj k Hin). left. }
  assert (wf_collection event ((d1 ++ [(k, v)]) ++ d2)) as Hwf'.
  { by rewrite <-app_assoc. }
  set (kept := filter (λ p : listener * invocable, is_once p.2 = false)) in *.
  assert (∃ w1, invoke body v a w = body k a (record_call k a w1) ∧
                calls w1 = calls w ∧
                default [] (_events w1 !! event) = kept (d1 ++ [(k, v)]) ++ d2 ∧
                ∀ event', event' ≠ event → _events w1 !! event' = _events w !! event')
    as (w1 & Hinvoke & Hcalls1 & Hc1 & Hother1).
  { destruct Hv as [->| ->]; cbn [invoke].
    - exists w. split; [done |]. split; [done |]. split; [| done].
      unfold kept. rewrite filter_app, (filter_cons _ (k, Plain k) []), filter_nil.
      cbn [snd is_once]. rewrite decide_True by done. by rewrite <-app_assoc.
    - set (c := kept d1 ++ (k, OnceWrapper event k) :: d2) in *.
      assert (_events w !! event = Some c) as Hlook.
      { destruct (_events w !! event) as [c0|]; cbn in Hc; [by rewrite Hc |].
        by destruct (kept d1). }
      assert (k ∈ keys c) as Hin.
      { unfold c, keys. rewrite fmap_app, fmap_cons, elem_of_app. right. left. }
      assert (NoDup (keys c)) as Hndc.
      { unfold c, keys, kept. rewrite fmap_app, fmap_cons. cbn [fst].
        apply NoDup_app. split; [| split].
        - eapply sublist_NoDup; [exact Hnd1 |].
          by apply fmap_sublist, sublist_filter.
        - intros x Hx. apply Hdisj.
          eapply elem_of_sublist; [exact Hx |].
          by apply fmap_sublist, sublist_filter.
        - by apply NoDup_cons. }
      destruct (_remove_listener_collection event k w c Hlook Hndc Hin)
        as (w1 & Hrm & Hc1 & Hother & _ & Hcalls).
      assert (k ∈ listeners event w) as Hl
        by (by rewrite (listeners_lookup _ _ _ Hlook)).
      destruct (g_registered body event k a w Hl) as (w1' & Hrm' & ->).
      rewrite Hrm in Hrm'. injection Hrm' as <-.
      exists w1. split; [done |]. split; [done |]. split; [| done].
      rewrite Hc1. unfold c. rewrite filter_app, filter_cons.
      cbn [fst]. rewrite decide_False by (by intros []).
      rewrite (filter_key_ne k d2) by done.
      rewrite (filter_key_ne k (kept d1)); cycle 1.
      { intros Hx. apply Hk1. unfold keys, kept in *.
        eapply elem_of_sublist; [exact Hx |].
        by apply fmap_sublist, sublist_filter. }
      unfold kept. rewrite filter_app, (filter_cons _ (k, OnceWrapper event k) []).
      cbn [snd is_once]. rewrite decide_False by done.
      by rewrite filter_nil, app_nil_r. }
  change (values ((k, v) :: d2)) with (v :: values d2).
  change (keys ((k, v) :: d2)) with (k :: keys d2).
  rewrite run_handlers_cons, Hinvoke. cbn [called_until_raise].
  destruct (Hleaf k (record_call k a w1)) as (x & hp & ->).
  cbn [record_call _events user calls].
  destruct (raises k) as [e|] eqn:Hraise.
  - eexists. split; [done |]. cbn [fst snd _events calls fmap list_fmap].
    rewrite Hcalls1. split; [done |]. split; [| done].
    rewrite Hc1. rewrite filter_called_cons by done.
    unfold kept. rewrite filter_app, <-app_assoc. do 2 f_equal.
    symmetry. apply filter_Forall_id, Forall_forall.
    intros p _ [_ Hin]. by apply elem_of_nil in Hin.
  - destruct (IH (d1 ++ [(k, v)]) (World (_events w1) hp (calls w1 ++ [(k, a)])) true
                Hwf' Hc1) as (w' & Hrun & Hcalls & Hc' & Hother').
    destruct (called_until_raise raises (keys d2)) as [cs r] eqn:Hcs.
    cbn [fst snd] in *. exists w'. split; [| split; [| split]].
    + rewrite Hrun. by destruct r, d2.
    + rewrite Hcalls. cbn [_events calls]. rewrite Hcalls1, <-app_assoc. done.
    + rewrite Hc', filter_called_cons by done.
      unfold kept. by rewrite filter_app, <-app_assoc.
    + intros event' Hne. rewrite Hother' by done. cbn [_events]. by apply Hother1.
Qed.

Lemma emit_leaf event a (raises : listener → option exn) w :
  (∀ f w0, ∃ x hp,
     body f a w0 =
       (match raises f with Some e => Raise e | None => Ok x end,
        World (_events w0) hp (calls w0))) →
  well_formed (_events w) →
  listeners event w ≠ [] →
  ∃ w',
    emit body event a w =
      (match (called_until_raise raises (listeners event w)).2 with
       | Some e => Raise e
       | None => Ok true
       end, w') ∧
    calls w' =
      calls w ++ ((λ f, (f, a)) <$> (called_until_raise raises (listeners event w)).1) ∧
    default [] (_events w' !! event) =
      filter (λ p, ¬ (is_once p.2 = true ∧
                      p.1 ∈ (called_until_raise raises (listeners event w)).1))
        (default [] (_events w !! event)) ∧
    ∀ event', event' ≠ event → _events w' !! event' = _events w !! event'.
Proof.
  intros Hleaf Hwf Hsome. unfold listeners in *.
  destruct (_events w !! event) as [d|] eqn:Hd; [| done]. cbn [default from_option id] in *.
  destruct (run_handlers_leaf event a raises Hleaf d [] w false)
    as (w' & Hrun & Hcalls & Hc & Hother).
  { by apply (Hwf event). }
  { by rewrite Hd. }
  exists w'. rewrite emit_eq, _call_handlers_eq, Hd. cbn [default from_option id].
  rewrite Hrun. split; [| done].
  destruct (called_until_raise raises (keys d)).2; [done |]. by destruct d.
Qed.

(** X3. When the registry is well formed and the listeners return without
    touching the registry or the log, [emit(event, *a)] calls every
    listener of [event] exactly once, in the order of registration, each
    with the arguments [a], and returns [True]; afterwards the listeners
    registered with [once] are gone from [event], the others are where they
    were, and the other events are as before. *)
Theorem emit_calls_listeners_in_order event a w :
  (∀ f w0, ∃ x hp, body f a w0 = (Ok x, World (_events w0) hp (calls w0))) →
  well_formed (_events w) →
  listeners event w ≠ [] →
  ∃ w',
    emit body event a w = (Ok true, w') ∧
    calls w' = calls w ++ ((λ f, (f, a)) <$> listeners event w) ∧
    default [] (_events w' !! event) =
      filter (λ p, is_once p.2 = false) (default [] (_events w !! event)) ∧
    ∀ event', event' ≠ event → _events w' !! event' = _events w !! event'.
Proof.
  intros Hleaf Hwf Hsome.
  destruct (emit_leaf event a (λ _, None) w Hleaf Hwf Hsome)
    as (w' & Hemit & Hcalls & Hc & Hother).
  rewrite called_until_raise_none in * by (by apply Forall_forall).
  cbn [fst snd] in *. exists w'. split; [done |]. split; [done |]. split; [| done].
  rewrite Hc. apply filter_ext_in. intros [k v] Hin. cbn [fst snd].
  assert (k ∈ listeners event w) as Hk
    by (by apply (list_elem_of_fmap_2 fst _ (k, v))).
  destruct (is_once v); split; try done.
  - intros H. exfalso. by apply H.
  - by intros _ [? _].
Qed.

(** X4. When the registry is well formed and the listeners leave the
    registry and the log alone, and [f] is the first listener of [event]
    that raises, [emit(event, *a)] calls the listeners before [f] and then
    [f], each once, and raises the exception of [f]: the listeners after
    [f] are not called. Of the listeners called, those registered with
    [once] are gone afterwards, [f] too; the ones after [f] all stay. *)
Theorem emit_stops_at_first_exception event a (raises : listener → option exn)
    w pre f e post :
  (∀ f w0, ∃ x hp,
     body f a w0 =
       (match raises f with Some e => Raise e | None => Ok x end,
        World (_events w0) hp (calls w0))) →
  well_formed (_events w) →
  listeners event w = pre ++ f :: post →
  Forall (λ g, raises g = None) pre →
  raises f = Some e →
  ∃ w',
    emit body event a w = (Raise e, w') ∧
    calls w' = calls w ++ ((λ g, (g, a)) <$> pre ++ [f]) ∧
    default [] (_events w' !! event) =
      filter (λ p, ¬ (is_once p.2 = true ∧ p.1 ∈ pre ++ [f]))
        (default [] (_events w !! event)) ∧
    ∀ event', event' ≠ event → _events w' !! event' = _events w !! event'.
Proof.
  intros Hleaf Hwf Hl Hpre Hf.
  destruct (emit_leaf event a raises w Hleaf Hwf) as (w' & Hemit & Hrest).
  { rewrite Hl. by destruct pre. }
  rewrite Hl, (called_until_raise_first _ _ _ _ _ Hpre Hf) in *.
  cbn [fst snd] in *. by exists w'.
Qed.

(** ** What [emit] returns *)

Lemma run_handlers_raise_split funcs a b w e w' :
  run_handlers body funcs a b w = (Raise e, w') →
  ∃ pre v post b' w_pre,
    funcs = pre ++ v :: post ∧
    run_handlers body pre a b w = (Ok b', w_pre) ∧
    invoke body v a w_pre = (Raise e, w').
Proof.
  revert b w. induction funcs as [|v funcs IH]; intros b w; [done |].
  rewrite run_handlers_cons.
  destruct (invoke body v a w) as [[x|e'] w1] eqn:Hv.
  - intros (pre & v' & post & b' & w_pre & -> & Hpre & Hraise)%IH.
    exists (v :: pre), v', post, b', w_pre. split; [done |].
    split; [| done]. by rewrite run_handlers_cons, Hv.
  - intros [= <- <-]. by exists [], v, funcs, b, w.
Qed.

(** A stored callable that raises has called its listener, in the world
    it was called in or in that world without the listener. *)
Lemma invoke_Raise v a w e w' :
  invoke body v a w = (Raise e, w') →
  ∃ prev,
    body (listener_of v) a (record_call (listener_of v) a prev) = (Raise e, w') ∧
    calls prev = calls w ∧ user prev = user w ∧
    ∀ event, listeners event prev ⊆ listeners event w.
Proof.
  destruct v as [h|event h]; cbn [invoke listener_of].
  - intros Hraise. by exists w.
  - destruct (decide (h ∈ listeners event w)) as [Hin|Hnin].
    + destruct (g_registered body event h a w Hin) as (prev & Hrm & ->).
      intros Hraise. exists prev. split; [done |].
      destruct (listeners_elem_lookup _ _ _ Hin) as (d & Hd & Hk).
      destruct (od_pop_is_Some _ _ Hk) as [[v d'] Hpop].
      pose proof Hrm as Hrm'.
      rewrite (_remove_listener_popped _ _ _ _ _ _ Hd Hpop) in Hrm'.
      injection Hrm' as <-. split; [done |]. split; [done |].
      intros event'. by eapply _remove_listener_listeners.
    + by rewrite g_unregistered.
Qed.

Lemma run_handlers_listeners_return funcs a b w :
  (∀ v, v ∈ funcs → ∀ w0, ∃ x w1, body (listener_of v) a w0 = (Ok x, w1)) →
  ∃ w', run_handlers body funcs a b w =
          (Ok (if funcs is [] then b else true), w').
Proof.
  revert b w. induction funcs as [|v funcs IH]; intros b w Hbody.
  - by eexists.
  - rewrite run_handlers_cons.
    assert (∃ x w1, invoke body v a w = (Ok x, w1)) as (x & w1 & ->).
    { destruct (invoke body v a w) as [[x|e] w1] eqn:Hv; [by eauto |].
      apply invoke_Raise in Hv as (prev & Hraise & _).
      destruct (Hbody v (list_elem_of_here _ _) (record_call (listener_of v) a prev))
        as (x & w2 & Hok).
      congruence. }
    destruct (IH true w1) as [w' ->].
    { intros v' Hv'. apply Hbody. by right. }
    exists w'. by destruct funcs.
Qed.

(** X5. [emit] returns [True] exactly when the event had a listener at the
    time of the call, and [False] only with the emitter untouched and for
    an event other than ["error"]. An exception out of [emit] is the
    failure for an ["error"] that nobody listens to, with the emitter
    untouched, or else the exception of a callable of the event, the first
    that raises: the callables stored before it have been run and have
    returned, and it has called its listener, a listener of the event when
    the registry is well formed, with the arguments of the [emit], the
    call being the last in the log that the listener finds. So with
    listeners none of which raises, [emit] returns [True]. *)
Theorem emit_outcomes event a w :
  (∀ r w',
     emit body event a w = (r, w') →
     match r with
     | Ok b =>
         b = bool_decide (listeners event w ≠ []) ∧
         (b = false → w' = w ∧ event ≠ "error")
     | Raise e =>
         (listeners event w = [] ∧ event = "error" ∧ w' = w ∧
          e = match first_positional a with
              | VExc e' => e'
              | error => PyeeError error
              end) ∨
         (∃ pre v post b w_pre prev,
            values (default [] (_events w !! event)) = pre ++ v :: post ∧
            run_handlers body pre a false w = (Ok b, w_pre) ∧
            calls prev = calls w_pre ∧ user prev = user w_pre ∧
            (∀ event', listeners event' prev ⊆ listeners event' w_pre) ∧
            body (listener_of v) a (record_call (listener_of v) a prev)
              = (Raise e, w') ∧
            (well_formed (_events w) → listener_of v ∈ listeners event w))
     end) ∧
  (listeners event w ≠ [] →
   (∀ v, v ∈ values (default [] (_events w !! event)) →
      ∀ w0, ∃ x w1, body (listener_of v) a w0 = (Ok x, w1)) →
   ∃ w', emit body event a w = (Ok true, w')).
Proof.
  split.
  - intros r w'. destruct (decide (listeners event w = [])) as [Hnone|Hsome].
    + rewrite emit_unheard by done. case_bool_decide as Herr.
      * intros [= <- <-]. by left.
      * intros [= <- <-]. by rewrite bool_decide_eq_false_2 by (by intros []).
    + rewrite emit_eq, _call_handlers_eq.
      destruct (run_handlers body _ a false w) as [[b|e] w1] eqn:Hrun.
      * assert (b = true) as ->.
        { unfold listeners in Hsome.
          destruct (default [] (_events w !! event)) as [|[k v] d]; [done |].
          change (values ((k, v) :: d)) with (v :: values d) in Hrun.
          rewrite run_handlers_cons in Hrun.
          destruct (invoke body v a w) as [[x|e] w2]; [| done].
          by eapply run_handlers_true. }
        intros [= <- <-]. by rewrite bool_decide_eq_true_2.
      * intros [= <- <-]. right.
        apply run_handlers_raise_split in Hrun
          as (pre & v & post & b & w_pre & Hsnap & Hpre & Hraise).
        apply invoke_Raise in Hraise as (prev & Hraise & Hcalls & Huser & Hsub).
        exists pre, v, post, b, w_pre, prev. repeat (split; [done |]).
        intros Hwf. unfold listeners in *.
        destruct (_events w !! event) as [d|] eqn:Hd; [| done].
        cbn [default from_option id] in *.
        assert (v ∈ values d) as Hv.
        { rewrite Hsnap, elem_of_app. right. left. }
        apply list_elem_of_fmap in Hv as ([k v'] & -> & Hkv). cbn [snd].
        destruct (proj2 (Hwf _ _ Hd) _ _ Hkv) as [-> | ->]; cbn [listener_of];
          exact (list_elem_of_fmap_2 fst _ _ Hkv).
  - intros Hsome Hbody. rewrite emit_eq, _call_handlers_eq.
    destruct (run_handlers_listeners_return
                (values (default [] (_events w !! event))) a false w Hbody)
      as [w' ->].
    exists w'. unfold listeners in Hsome.
    by destruct (default [] (_events w !! event)).
Qed.

(** ** Removing *)

(** X6. [remove_listener(event, f)] for a listener of [event] returns and
    takes out [f] alone: the other listeners of [event] keep their order
    and their callables, the other events, the heap and the log are
    untouched, and [event] stays in [event_names()] exactly when a listener
    is left. *)
Theorem remove_listener_removes_one event f w d :
  _events w !! event = Some d →
  NoDup (keys d) →
  f ∈ keys d →
  ∃ w',
    remove_listener event f w = (Ok tt, w') ∧
    default [] (_events w' !! event) = filter (λ p, p.1 ≠ f) d ∧
    listeners event w' = filter (λ k, k ≠ f) (listeners event w) ∧
    (event ∈ event_names w' ↔ listeners event w' ≠ []) ∧
    (∀ event', event' ≠ event → _events w' !! event' = _events w !! event') ∧
    user w' = user w ∧ calls w' = calls w.
Proof.
  intros Hd Hnd Hf. destruct (od_pop_is_Some _ _ Hf) as [[v d'] Hpop].
  destruct (od_pop_Some _ _ _ _ Hnd Hpop) as [_ Hd'].
  destruct (_remove_listener_collection event f w d Hd Hnd Hf)
    as (w' & Hrm & Hc & Hother & Huser & Hcalls).
  exists w'. split; [done |]. split; [done |].
  assert (listeners event w' = filter (λ k, k ≠ f) (listeners event w)) as Hl.
  { unfold listeners at 1. rewrite Hc, keys_filter.
    by rewrite (listeners_lookup _ _ _ Hd). }
  split; [done |]. split; [| done].
  unfold remove_listener, with_lock in Hrm.
  rewrite (_remove_listener_popped _ _ _ _ _ _ Hd Hpop) in Hrm.
  injection Hrm as <-. unfold event_names, listeners. cbn [_events].
  rewrite elem_of_dom. case_bool_decide as Hnil.
  - rewrite lookup_delete_eq. split; [by intros [? ?] | done].
  - rewrite lookup_insert_eq. split; [| by eauto].
    intros _ Hk%keys_nil_inv. done.
Qed.

(** X7. After [remove_all_listeners(event)] the event has no listener
    while the other events, the heap and the log are as before; an
    [emit(event)] then calls nothing, a wrapper of [once] for the event
    that is still to run calls nothing, and [remove_listener(event, f)]
    raises [KeyError] of [f], not of [event]. *)
Theorem after_remove_all_listeners_of_event event w :
  ∃ w',
    remove_all_listeners (Some event) w = (Ok tt, w') ∧
    listeners event w' = [] ∧
    (∀ event', event' ≠ event → _events w' !! event' = _events w !! event') ∧
    user w' = user w ∧ calls w' = calls w ∧
    (∀ a, emit body event a w' =
            (if bool_decide (event = "error")
             then Raise (match first_positional a with
                         | VExc e => e
                         | error => PyeeError error
                         end)
             else Ok false, w')) ∧
    (∀ f a, invoke body (OnceWrapper event f) a w' = (Ok VNone, w')) ∧
    (∀ f, remove_listener event f w' = (Raise (KeyError (VFun f)), w')).
Proof.
  eexists. split; [reflexivity |].
  set (w' := World (<[event := []]> (_events w)) (user w) (calls w)).
  assert (_events w' !! event = Some []) as Hd by apply lookup_insert_eq.
  assert (listeners event w' = []) as Hl by (unfold listeners; by rewrite Hd).
  split; [done |]. split; [| split; [done |]; split; [done |]].
  { intros event' Hne. by apply lookup_insert_ne. }
  split; [| split].
  - intros a. by apply emit_unheard.
  - intros f a. apply g_unregistered. rewrite Hl. apply not_elem_of_nil.
  - intros f. eapply _remove_listener_no_key; [done |]. apply not_elem_of_nil.
Qed.

(** X8. After [remove_all_listeners()] no event is left: [event_names()]
    is empty, no event has a listener, every [emit] behaves as for an
    event nobody listens to, and [remove_listener(event, f)] raises
    [KeyError] of [event]. The heap and the log are as before. *)
Theorem after_remove_all_listeners w :
  ∃ w',
    remove_all_listeners None w = (Ok tt, w') ∧
    event_names w' = ∅ ∧
    (∀ event, listeners event w' = []) ∧
    user w' = user w ∧ calls w' = calls w ∧
    (∀ event a, emit body event a w' =
                  (if bool_decide (event = "error")
                   then Raise (match first_positional a with
                               | VExc e => e
                               | error => PyeeError error
                               end)
                   else Ok false, w')) ∧
    (∀ event f, remove_listener event f w' = (Raise (KeyError (VStr event)), w')).
Proof.
  eexists. split; [reflexivity |].
  set (w' := World ∅ (user w) (calls w)).
  assert (∀ event, listeners event w' = []) as Hl.
  { intros event. unfold listeners, w'. cbn [_events]. by rewrite lookup_empty. }
  split; [apply dom_empty_L |]. split; [done |]. split; [done |]. split; [done |].
  split.
  - intros event a. by apply emit_unheard.
  - intros event f. apply _remove_listener_no_event. apply lookup_empty.
Qed.

(** ** Registering and removing *)

(** X9. Registering a listener that was not one, with [on] or with [once],
    and removing it with [remove_listener] gives back the emitter that the
    ["new_listener"] emission has left, key for key, when the event was
    not kept there with an empty collection. *)
Theorem register_then_remove event f w b w0 :
  emit body "new_listener" (Args [VStr event; VFun f] []) w = (Ok b, w0) →
  f ∉ listeners event w0 →
  _events w0 !! event ≠ Some [] →
  ∃ w1 w2,
    on body event (Some f) w = (Ok (Registered f), w1) ∧
    remove_listener event f w1 = (Ok tt, w0) ∧
    once body event (Some f) w = (Ok (Registered f), w2) ∧
    remove_listener event f w2 = (Ok tt, w0).
Proof.
  intros Hemit Hf Hne. eexists _, _. rewrite on_eq, once_eq, Hemit.
  assert (∀ v, remove_listener event f (registered event f v w0) = (Ok tt, w0))
    as Hback.
  { intros v. unfold remove_listener, with_lock.
    erewrite _remove_listener_popped;
      [| apply registered_lookup | by apply od_pop_od_set].
    f_equal. unfold registered. cbn [_events user calls]. unfold listeners in Hf.
    destruct w0 as [ev hp cs]. cbn [_events user calls] in *. f_equal.
    destruct (ev !! event) as [d|] eqn:Hd; cbn [default from_option id].
    - rewrite bool_decide_eq_false_2 by congruence.
      by rewrite insert_insert_eq, insert_id.
    - rewrite bool_decide_eq_true_2 by done.
      by rewrite delete_insert_eq, delete_id. }
  by rewrite !Hback.
Qed.

(** X10. Registering again a listener that is registered under the event
    keeps the listeners and their order and replaces the callable stored
    for it: after [on] it is the listener itself, which stays registered
    when it is called, after [once] it is the wrapper that removes it. The
    entries of the other listeners are untouched. *)
Theorem registration_replaces_callable event f w b w1 i :
  emit body "new_listener" (Args [VStr event; VFun f] []) w = (Ok b, w1) →
  NoDup (listeners event w1) →
  listeners event w1 !! i = Some f →
  ∃ w2 w3,
    on body event (Some f) w = (Ok (Registered f), w2) ∧
    once body event (Some f) w = (Ok (Registered f), w3) ∧
    default [] (_events w2 !! event) =
      <[i := (f, Plain f)]> (default [] (_events w1 !! event)) ∧
    default [] (_events w3 !! event) =
      <[i := (f, OnceWrapper event f)]> (default [] (_events w1 !! event)) ∧
    listeners event w2 = listeners event w1 ∧
    listeners event w3 = listeners event w1.
Proof.
  intros Hemit Hnd Hi. eexists _, _. rewrite on_eq, once_eq, Hemit.
  split; [done |]. split; [done |].
  unfold listeners in *. rewrite !registered_lookup. cbn [default from_option id].
  rewrite !(od_set_insert _ _ i) by done.
  split; [done |]. split; [done |].
  assert (∀ v, keys (<[i := (f, v)]> (default [] (_events w1 !! event)))
               = keys (default [] (_events w1 !! event))) as Hkeys.
  { intros v. unfold keys in *. rewrite list_fmap_insert. cbn [fst].
    by apply list_insert_id. }
  by rewrite !Hkeys.
Qed.

(** ** The event ["new_listener"] *)

Lemma emit_leaf_returns event a w :
  (∀ f w0, ∃ x hp, body f a w0 = (Ok x, World (_events w0) hp (calls w0))) →
  well_formed (_events w) →
  event ≠ "error" →
  ∃ b w',
    emit body event a w = (Ok b, w') ∧
    calls w' = calls w ++ ((λ f, (f, a)) <$> listeners event w) ∧
    well_formed (_events w').
Proof.
  intros Hleaf Hwf Herr.
  assert (well_formed (_events (emit body event a w).2)) as Hwf'.
  { apply emit_keeps; [| apply well_formed__remove_listener | done].
    intros f w0 Hw0. destruct (Hleaf f w0) as (x & hp & ->). done. }
  destruct (decide (listeners event w = [])) as [Hnone|Hsome].
  - rewrite emit_unheard in * by done.
    rewrite bool_decide_eq_false_2 in * by done.
    exists false, w. by rewrite Hnone, app_nil_r.
  - destruct (emit_leaf event a (λ _, None) w Hleaf Hwf Hsome)
      as (w' & Hemit & Hcalls & _).
    rewrite called_until_raise_none in * by (by apply Forall_forall).
    rewrite Hemit in Hwf'. by exists true, w'.
Qed.





(** X11. A listener of ["new_listener"] does not fire upon its own
    creation, and fires for every registration after it. With a well
    formed registry and listeners that return without touching the
    registry or the log: [on("new_listener", h)] for a new [h] calls the
    listeners that ["new_listener"] had, once each, with
    [("new_listener", h)], and not [h]; every later [on(event, f)] calls
    [h] with [(event, f)]. *)
Theorem new_listener_not_for_itself h w :
  (∀ f a w0, ∃ x hp, body f a w0 = (Ok x, World (_events w0) hp (calls w0))) →
  well_formed (_events w) →
  h ∉ listeners "new_listener" w →
  ∃ w1,
    on body "new_listener" (Some h) w = (Ok (Registered h), w1) ∧
    calls w1 =
      calls w ++ ((λ k, (k, Args [VStr "new_listener"; VFun h] []))
                    <$> listeners "new_listener" w) ∧
    h ∈ listeners "new_listener" w1 ∧
    ∀ event f, ∃ w2,
      on body event (Some f) w1 = (Ok (Registered f), w2) ∧
      (h, Args [VStr event; VFun f] []) ∈ calls w2.
Proof.
  intros Hleaf Hwf Hh.
  destruct (emit_leaf_returns "new_listener" (Args [VStr "new_listener"; VFun h] [])
              w (λ f, Hleaf f _) Hwf) as (b & w0 & Hemit & Hcalls & Hwf0); [done |].
  set (w1 := registered "new_listener" h (Plain h) w0).
  assert (h ∈ listeners "new_listener" w1) as Hin.
  { unfold w1. rewrite listeners_registered. case_decide; [done |].
    rewrite elem_of_app. right. left. }
  exists w1. split; [by rewrite on_eq, Hemit |]. split; [done |]. split; [done |].
  intros event f.
  destruct (emit_leaf_returns "new_listener" (Args [VStr event; VFun f] [])
              w1 (λ f, Hleaf f _)) as (b' & w2 & Hemit' & Hcalls' & _); [| done |].
  { by apply well_formed_registered; [left |]. }
  eexists. split; [by rewrite on_eq, Hemit' |].
  cbn [registered calls]. rewrite Hcalls', elem_of_app. right.
  by apply (list_elem_of_fmap_2 (λ k, (k, Args [VStr event; VFun f] []))).
Qed.

(** ** Decorators *)

(** X12. [on(event)] and [once(event)] without a listener register
    nothing; they return a decorator. Applied to [f], the decorator
    registers [f] as the call with [f] does and returns [f] itself, so
    that the decorated function can be handed to [remove_listener], which
    then takes it out. *)
Theorem decorated_listener_can_be_removed event f w w' b w0 :
  emit body "new_listener" (Args [VStr event; VFun f] []) w' = (Ok b, w0) →
  NoDup (listeners event w0) →
  ∃ d_on d_once,
    on body event None w = (Ok (Decorator d_on), w) ∧
    once body event None w = (Ok (Decorator d_once), w) ∧
    (∃ w1 w2,
       d_on f w' = (Ok f, w1) ∧
       on body event (Some f) w' = (Ok (Registered f), w1) ∧
       remove_listener event f w1 = (Ok tt, w2) ∧
       f ∉ listeners event w2) ∧
    (∃ w1 w2,
       d_once f w' = (Ok f, w1) ∧
       once body event (Some f) w' = (Ok (Registered f), w1) ∧
       remove_listener event f w1 = (Ok tt, w2) ∧
       f ∉ listeners event w2).
Proof.
  intros Hemit Hnd. eexists _, _. split; [reflexivity |]. split; [reflexivity |].
  assert (∀ v, ∃ w2, remove_listener event f (registered event f v w0) = (Ok tt, w2) ∧
                     f ∉ listeners event w2) as Hrm.
  { intros v.
    destruct (_remove_listener_registered event f (registered event f v w0))
      as (w2 & Hrm & Hl & _).
    - rewrite listeners_registered. case_decide as Hin; [done |].
      apply NoDup_app. split; [done |]. split; [| apply NoDup_singleton].
      intros x Hx ->%list_elem_of_singleton. done.
    - rewrite listeners_registered. case_decide; [done |].
      rewrite elem_of_app. right. left.
    - exists w2. split; [done |]. rewrite Hl.
      intros Hin. by apply list_elem_of_filter in Hin as [? _]. }
  split.
  - destruct (Hrm (Plain f)) as (w2 & Hrm2 & Hgone). eexists _, w2.
    rewrite on_eq. unfold listens_to, bind. rewrite _add_event_handler_eq, Hemit.
    done.
  - destruct (Hrm (OnceWrapper event f)) as (w2 & Hrm2 & Hgone). eexists _, w2.
    rewrite once_eq. unfold _wrapper, bind. rewrite _add_event_handler_eq, Hemit.
    done.
Qed.

(** ** Evented classes *)

Lemma register_order handlers (bound : nat → listener) i w :
  (∀ i j, bound i = bound j → i = j) →
  Forall (λ hd, cls.event hd ≠ "new_listener") handlers →
  listeners "new_listener" w = [] →
  (∀ e x, x ∈ listeners e w → ∃ j, j < i ∧ x = bound j) →
  ∃ w',
    cls.register body bound i handlers w = (Ok tt, w') ∧
    user w' = user w ∧ calls w' = calls w ∧
    ∀ e, listeners e w' = listeners e w ++ cls.bound_for e bound i handlers.
Proof.
  intros Hinj Hnl. revert i w.
  induction Hnl as [|hd handlers Hh _ IH]; intros i w Hnone Hold.
  { exists w. split; [done |]. split; [done |]. split; [done |].
    intros e. cbn. by rewrite app_nil_r. }
  set (w1 := registered (cls.event hd) (bound i) (Plain (bound i)) w).
  assert (bound i ∉ listeners (cls.event hd) w) as Hfresh.
  { intros (j & Hj & Heq)%Hold. apply Hinj in Heq. lia. }
  assert (∀ e, listeners e w1 =
               listeners e w ++ (if decide (cls.event hd = e) then [bound i] else []))
    as Hl1.
  { intros e. unfold w1. case_decide as He.
    - subst e. by rewrite listeners_registered, decide_False.
    - by rewrite listeners_registered_ne, app_nil_r. }
  destruct (IH (S i) w1) as (w' & Hrun & Huser & Hcalls & Hl).
  - rewrite Hl1, Hnone. by rewrite decide_False.
  - intros e x. rewrite Hl1, elem_of_app. intros [Hx|Hx].
    + destruct (Hold e x Hx) as (j & Hj & ->). exists j. split; [lia | done].
    + case_decide; [| by apply elem_of_nil in Hx].
      apply list_elem_of_singleton in Hx as ->. exists i. split; [lia | done].
  - exists w'. cbn [cls.register].
    erewrite bind_Ok; [| by rewrite on_eq, notify_unheard].
    split; [done |]. split; [done |]. split; [done |].
    intros e. rewrite Hl, Hl1. cbn [cls.bound_for]. by rewrite app_assoc.
Qed.

(** X15. The [__init__] of an evented class whose object has no emitter of
    its own makes a new emitter and registers one listener for each
    handler, in the order of the declarations and without calling
    anything, when no handler is for ["new_listener"]: under an event lie
    the closures of the methods declared for it, one for each declaration,
    also when a method is declared twice for the event. *)
Theorem init_registers_in_order handlers (og_init : option (M bool))
    (bound : nat → listener) w w0 :
  match og_init with
  | Some og_init => og_init
  | None => ret false
  end w = (Ok false, w0) →
  (∀ i j, bound i = bound j → i = j) →
  Forall (λ hd, cls.event hd ≠ "new_listener") handlers →
  ∃ w',
    cls.init body handlers og_init bound w = (Ok tt, w') ∧
    user w' = user w0 ∧ calls w' = calls w0 ∧
    ∀ e, listeners e w' = cls.bound_for e bound 0 handlers.
Proof.
  intros Hog Hinj Hnl.
  destruct (register_order handlers bound 0 (World ∅ (user w0) (calls w0)) Hinj Hnl)
    as (w' & Hrun & Huser & Hcalls & Hl).
  { unfold listeners. cbn [_events]. by rewrite lookup_empty. }
  { intros e x. unfold listeners. cbn [_events]. rewrite lookup_empty.
    by intros ?%elem_of_nil. }
  exists w'. unfold cls.init. erewrite bind_Ok; [| exact Hog].
  split; [exact Hrun |]. split; [done |]. split; [done |].
  intros e. rewrite Hl. unfold listeners at 1. cbn [_events].
  by rewrite lookup_empty.
Qed.

(** X16. An object of an evented class with one handler, for an event
    other than ["new_listener"]: [emit] of that event on the emitter that
    [__init__] has made calls the method once, with the object first and
    then the arguments of the [emit], positional and keyword, and returns
    [True] when the method returns. *)
Theorem evented_emit_calls_method self e m (method_body : arguments → M value)
    (bound : nat → listener) a w :
  (∀ a' w', body (bound 0) a' w' = cls._bind self method_body a' w') →
  e ≠ "new_listener" →
  ∃ w1,
    cls.init body [cls.mkHandler e m] None bound w = (Ok tt, w1) ∧
    listeners e w1 = [bound 0] ∧
    emit body e a w1 =
      let '(r, w2) := method_body (Args (self :: positional a) (keywords a))
                        (World (_events w1) (user w1) (calls w1 ++ [(bound 0, a)])) in
      (handled r, w2).
Proof.
  intros Hbody He.
  set (w0 := World ∅ (user w) (calls w)).
  set (w1 := registered e (bound 0) (Plain (bound 0)) w0).
  assert (listeners e w0 = []) as Hnone.
  { unfold listeners, w0. cbn [_events]. by rewrite lookup_empty. }
  assert (_events w1 !! e = Some [(bound 0, Plain (bound 0))]) as Hd
    by (by apply registered_first).
  exists w1. split; [| split].
  - unfold cls.init, cls.register. cbn [cls.event].
    erewrite bind_Ok; [| reflexivity]. erewrite bind_Ok; [| reflexivity].
    erewrite bind_Ok; [reflexivity |].
    rewrite on_eq, notify_unheard; [done |].
    unfold listeners. cbn [_events]. by rewrite lookup_empty.
  - by rewrite (listeners_lookup _ _ _ Hd).
  - rewrite (emit_only_plain body _ _ _ _ Hd), Hbody. done.
Qed.
End Further.

(** ** Declaring handlers *)

Lemma declare_eq ms (hs : cls.Handlers) :
  cls.declare ms hs = hs ++ ((λ m, cls.mkHandler m.1 m.2) <$> ms).
Proof.
  revert hs. induction ms as [|m ms IH]; intros hs.
  - by rewrite app_nil_r.
  - unfold cls.declare in *. cbn [foldl]. rewrite IH.
    unfold cls.on, cls.append. cbn [snd]. by rewrite <-app_assoc.
Qed.

(** X14. [evented] takes all the handlers that [on] has collected since
    the list of the module was last emptied, in the order of their
    declarations, those left over from before the class too, and empties
    the list: the next evented class gets the handlers declared after, and
    only those. *)
Theorem evented_takes_what_was_declared (left : cls.Handlers) ms1 ms2 :
  let first := cls.evented (cls.declare ms1 left) in
  let second := cls.evented (cls.declare ms2 first.2) in
  first.1 = left ++ ((λ m, cls.mkHandler m.1 m.2) <$> ms1) ∧
  second.1 = (λ m, cls.mkHandler m.1 m.2) <$> ms2 ∧
  second.2 = [].
Proof.
  intros first second. unfold second, first, cls.evented, cls.reset. cbn [fst snd].
  by rewrite !declare_eq.
Qed.

(** ** Pickling an emitter *)

(** X13. [__getstate__] gives the attributes without the lock, and raises
    [KeyError] when there is no lock. [__setstate__] with that state on
    an object without attributes gives the attributes of the emitter
    back, the registry too, with a new lock that nobody holds, whether or
    not the lock of the emitter was held; an emitter as [__init__] makes it
    has a lock. *)
Theorem getstate_setstate (self : gmap string attribute) :
  (is_Some (self !! "_lock") →
   ∃ state,
     __getstate__ self = Ok state ∧
     state !! "_lock" = None ∧
     __setstate__ ∅ state = <["_lock" := AttrLock false]> self ∧
     __setstate__ ∅ state !! "_events" = self !! "_events") ∧
  (self !! "_lock" = None → __getstate__ self = Raise (KeyError (VStr "_lock"))) ∧
  is_Some (__init__ self !! "_lock").
Proof.
  split; [| split].
  - intros [l Hl]. exists (delete "_lock" self). unfold __getstate__, __setstate__.
    rewrite Hl. split; [done |]. split; [apply lookup_delete_eq |].
    rewrite (right_id_L ∅ (∪)), insert_delete_eq. split; [done |].
    by rewrite lookup_insert_ne.
  - intros Hl. unfold __getstate__. by rewrite Hl.
  - unfold __init__. rewrite lookup_insert_eq. by eexists.
Qed.

(** * Examples *)

(** C1 at a new emitter, and with a listener on ["error"]. *)
Lemma emit_without_listeners_witness :
  emit quiet "missing" no_arguments new_emitter = (Ok false, new_emitter) ∧
  emit quiet "error" (Args [VExc (UserError "boom")] []) new_emitter
    = (Raise (UserError "boom"), new_emitter) ∧
  emit quiet "error" (Args [VInt 7] []) new_emitter
    = (Raise (PyeeError (VInt 7)), new_emitter) ∧
  emit quiet "error" no_arguments new_emitter
    = (Raise (PyeeError VNone), new_emitter) ∧
  ∃ w', emit quiet "error" no_arguments
          (on quiet "error" (Some 0) new_emitter).2 = (Ok true, w').
Proof.
  split; [| split; [| split; [| split]]].
  - apply (proj1 (emit_without_listeners quiet "missing" no_arguments new_emitter)).
    reflexivity.
  - apply (proj1 (emit_without_listeners quiet "error"
                    (Args [VExc (UserError "boom")] []) new_emitter)).
    reflexivity.
  - apply (proj1 (emit_without_listeners quiet "error"
                    (Args [VInt 7] []) new_emitter)).
    reflexivity.
  - apply (proj1 (emit_without_listeners quiet "error" no_arguments new_emitter)).
    reflexivity.
  - apply (proj2 (emit_without_listeners quiet "error" no_arguments
                    (on quiet "error" (Some 0) new_emitter).2)).
    + vm_compute. discriminate.
    + intros f w0. exists VNone, w0. reflexivity.
Defined.

(** C2: [e.on("greet", h)]; [e.emit("greet", "hi")]. *)
Lemma on_then_emit_witness :
  let w1 := (on quiet "greet" (Some 0) new_emitter).2 in
  listeners "greet" w1 = [0] ∧
  emit quiet "greet" (Args [VStr "hi"] []) w1
    = (Ok true, World (_events w1) tt [(0, Args [VStr "hi"] [])]).
Proof.
  intros w1. split; [reflexivity |].
  apply (on_then_emit quiet "greet" 0 (Args [VStr "hi"] []) new_emitter w1
           eq_refl eq_refl).
Defined.

(** C3 fails for the event ["error"]: once its only listener, registered
    with [once], has fired, the second [emit("error")] raises. *)
Lemma once_error_second_emit_raises :
  let w1 := (once quiet "error" (Some 0) new_emitter).2 in
  let w2 := (emit quiet "error" no_arguments w1).2 in
  once quiet "error" (Some 0) new_emitter = (Ok (Registered 0), w1) ∧
  listeners "error" w1 = [0] ∧
  emit quiet "error" no_arguments w1 = (Ok true, w2) ∧
  calls w2 = [(0, no_arguments)] ∧
  emit quiet "error" no_arguments w2 = (Raise (PyeeError VNone), w2) ∧
  (emit quiet "error" no_arguments w2).1 ≠ Ok false.
Proof. repeat split; try reflexivity. vm_compute. discriminate. Qed.

(** The amended C3 for the event ["x"]. *)
Lemma once_then_emit_twice_witness :
  let w1 := (once quiet "x" (Some 0) new_emitter).2 in
  let fired := World (delete "x" (_events w1)) tt [(0, Args [VInt 1] [])] in
  listeners "x" w1 = [0] ∧
  listeners "x" fired = [] ∧
  emit quiet "x" (Args [VInt 1] []) w1 = (Ok true, fired) ∧
  emit quiet "x" (Args [VInt 2] []) fired = (Ok false, fired) ∧
  invoke quiet (OnceWrapper "x" 0) (Args [VInt 1] []) fired = (Ok VNone, fired) ∧
  ∃ w', _remove_listener "x" 0 w1 = (Ok tt, w') ∧
        (0 ∉ listeners "x" w') ∧
        invoke quiet (OnceWrapper "x" 0) (Args [VInt 1] []) w1
          = quiet 0 (Args [VInt 1] []) (record_call 0 (Args [VInt 1] []) w').
Proof.
  intros w1 fired.
  destruct (once_then_emit_twice quiet "x" 0 (Args [VInt 1] []))
    as (Hstale & Hfires & Hscenario).
  destruct (Hscenario (Args [VInt 2] []) new_emitter w1 eq_refl eq_refl)
    as (Hgone & Hfirst & Hsecond).
  split; [reflexivity |]. split; [exact Hgone |]. split; [exact Hfirst |].
  split; [apply (Hsecond (Ok VNone) fired); reflexivity |].
  split.
  - apply Hstale. vm_compute. apply not_elem_of_nil.
  - apply Hfires.
    + vm_compute. left.
    + apply (bool_decide_unpack _). vm_compute. exact I.
Defined.

(** The two ways to take the only listener of ["x"] away:
    [remove_all_listeners("x")] leaves the key ["x"] behind,
    [remove_listener("x", 0)] does not. *)
Example remove_all_listeners_leaves_event :
  let w1 := (on quiet "x" (Some 0) new_emitter).2 in
  let w2 := (remove_all_listeners (Some "x") w1).2 in
  let w3 := (remove_listener "x" 0 w1).2 in
  listeners "x" w1 = [0] ∧
  _events w2 !! "x" = Some [] ∧ listeners "x" w2 = [] ∧
  "x" ∈ event_names w2 ∧
  _events w3 !! "x" = None ∧ "x" ∉ event_names w3.
Proof.
  intros w1 w2 w3.
  split; [reflexivity |]. split; [reflexivity |]. split; [reflexivity |].
  split; [| split; [reflexivity |]].
  - apply elem_of_dom. by eexists.
  - apply not_elem_of_dom. reflexivity.
Qed.

(** C6 for a missing event and for a missing listener. *)
Lemma remove_listener_unregistered_witness :
  let w1 := (on quiet "x" (Some 0) new_emitter).2 in
  remove_listener "x" 0 new_emitter
    = (Raise (KeyError (VStr "x")), new_emitter) ∧
  remove_listener "x" 1 w1 = (Raise (KeyError (VFun 1)), w1).
Proof.
  intros w1. split.
  - apply (remove_listener_unregistered "x" 0 new_emitter).
    vm_compute. apply not_elem_of_nil.
  - apply (remove_listener_unregistered "x" 1 w1).
    vm_compute. intros [H|H]%elem_of_cons; [discriminate | by apply elem_of_nil in H].
Defined.

(** C7: [on("x", 0)], [on("x", 1)], then [on("x", 0)] again; and
    [on("greet", 0)] twice, then [emit("greet", "hi")]. *)
Lemma on_again_keeps_position_witness :
  let w1 := (on quiet "x" (Some 1) (on quiet "x" (Some 0) new_emitter).2).2 in
  (listeners "x" w1 = [0; 1] ∧
   on quiet "x" (Some 0) w1 = (Ok (Registered 0), w1)) ∧
  ∃ w2,
    on quiet "greet" (Some 0) new_emitter = (Ok (Registered 0), w2) ∧
    on quiet "greet" (Some 0) w2 = (Ok (Registered 0), w2) ∧
    listeners "greet" w2 = [0] ∧
    emit quiet "greet" (Args [VStr "hi"] []) w2
      = (Ok true, World (_events w2) (user w2)
                    (calls w2 ++ [(0, Args [VStr "hi"] [])])).
Proof.
  intros w1. split.
  - split; [reflexivity |].
    apply (proj1 (on_again_keeps_position quiet "x" 0 no_arguments w1)
             false w1 [(0, Plain 0); (1, Plain 1)] 0).
    + reflexivity.
    + reflexivity.
    + apply (bool_decide_unpack _). vm_compute. exact I.
    + reflexivity.
  - apply (proj2 (on_again_keeps_position quiet "greet" 0
                    (Args [VStr "hi"] []) new_emitter)).
    + reflexivity.
    + discriminate.
    + reflexivity.
Defined.

(** C9: [on("x", 0)], [once("x", 1)], [on("x", 2)]. *)
Lemma listeners_registration_order_witness :
  listeners "x" new_emitter = [] ∧
  ∃ w', register_all quiet "x" [(false, 0); (true, 1); (false, 2)] new_emitter
          = (Ok tt, w') ∧
        listeners "x" w' = [0; 1; 2].
Proof.
  destruct (listeners_registration_order quiet "x" new_emitter)
    as (Hnone & _ & Hall).
  split; [apply Hnone; reflexivity |].
  apply (Hall [(false, 0); (true, 1); (false, 2)]).
  - reflexivity.
  - discriminate.
  - apply (bool_decide_unpack _). vm_compute. exact I.
Defined.

(** C10 fails for a handler registered with [once]: it is gone from the
    registry when its exception reaches the caller of [on]. *)
Lemma once_handler_raises_registry_changed :
  let w1 := (once one_raises "new_listener" (Some 1) new_emitter).2 in
  let w2 := (on one_raises "x" (Some 2) w1).2 in
  once one_raises "new_listener" (Some 1) new_emitter = (Ok (Registered 1), w1) ∧
  listeners "new_listener" w1 = [1] ∧
  on one_raises "x" (Some 2) w1 = (Raise (UserError "boom"), w2) ∧
  listeners "x" w2 = [] ∧
  listeners "new_listener" w2 = [] ∧
  _events w2 ≠ _events w1.
Proof.
  repeat split; try reflexivity.
  intros H. apply (f_equal (λ ev : registry, ev !! "new_listener")) in H.
  vm_compute in H. discriminate.
Qed.

(** The amended C10 for a handler registered with [on]. *)
Lemma registration_fails_with_handler_witness :
  let w := (on one_raises "new_listener" (Some 1) new_emitter).2 in
  let w1 := record_call 1 (Args [VStr "x"; VFun 2] []) w in
  on one_raises "x" (Some 2) w = (Raise (UserError "boom"), w1) ∧
  once one_raises "x" (Some 2) w = (Raise (UserError "boom"), w1) ∧
  _events w1 = _events w.
Proof.
  intros w w1.
  destruct (registration_fails_with_handler one_raises "x" 2 w
              (UserError "boom") w1 eq_refl) as (_ & (Hon & _ & Honce) & Hsame).
  split; [exact Hon |]. split; [exact Honce |].
  apply Hsame.
  - intros v Hv. exists 1. vm_compute in Hv.
    apply list_elem_of_singleton in Hv. exact Hv.
  - intros h w0. unfold one_raises. destruct (decide (h = 1)); reflexivity.
Defined.

(** * Examples of the further properties *)

Lemma three_listeners_well_formed : well_formed (_events three_listeners).
Proof.
  unfold three_listeners.
  apply well_formed_registered; [by left |].
  apply well_formed_registered; [by right |].
  apply well_formed_registered; [by left |].
  apply well_formed_empty.
Qed.

Lemma quiet_leaf (f : listener) (a : arguments) (w0 : @world unit) :
  ∃ x hp, quiet f a w0 = (Ok x, World (_events w0) hp (calls w0)).
Proof. exists VNone, (user w0). by destruct w0. Qed.

Lemma one_raises_leaf (f : listener) (a : arguments) (w0 : @world unit) :
  ∃ x hp,
    one_raises f a w0 =
      (match one_raises_what f with Some e => Raise e | None => Ok x end,
       World (_events w0) hp (calls w0)).
Proof.
  exists VNone, (user w0). unfold one_raises, one_raises_what.
  destruct w0. by destruct (decide (f = 1)).
Qed.

(** X1 for a caller that registers, emits and removes. *)
Lemma perform_all_well_formed_witness :
  well_formed (_events (perform_all quiet
    [CallOn "x" 0; CallOnce "x" 1; CallEmit "x" no_arguments;
     CallRemoveAllListeners (Some "x"); CallRemoveListener "x" 0;
     CallOn "y" 0; CallRemoveAllListeners None] new_emitter)).
Proof.
  apply (perform_all_well_formed quiet).
  - intros f a w0 Hw0. exact Hw0.
  - apply well_formed_empty.
Defined.

(** X2 for a caller that does not clear single events. *)
Lemma event_names_exact_witness :
  let w := perform_all quiet
    [CallOn "x" 0; CallOnce "y" 1; CallEmit "y" no_arguments;
     CallRemoveListener "x" 0] new_emitter in
  ("x" ∈ event_names w ↔ listeners "x" w ≠ []) ∧
  ("y" ∈ event_names w ↔ listeners "y" w ≠ []).
Proof.
  intros w. split.
  - apply (event_names_exact quiet).
    + intros f a w0 Hw0. exact Hw0.
    + repeat constructor.
    + apply no_empty_collection_empty.
  - apply (event_names_exact quiet).
    + intros f a w0 Hw0. exact Hw0.
    + repeat constructor.
    + apply no_empty_collection_empty.
Defined.

(** X3: [emit("x", 7)] with the listeners [0], [1] (by [once]) and [2]. *)
Lemma emit_calls_listeners_in_order_witness :
  ∃ w',
    emit quiet "x" (Args [VInt 7] []) three_listeners = (Ok true, w') ∧
    calls w' = [(0, Args [VInt 7] []); (1, Args [VInt 7] []); (2, Args [VInt 7] [])] ∧
    default [] (_events w' !! "x") = [(0, Plain 0); (2, Plain 2)] ∧
    ∀ event', event' ≠ "x" → _events w' !! event' = _events three_listeners !! event'.
Proof.
  apply (emit_calls_listeners_in_order quiet "x" (Args [VInt 7] []) three_listeners).
  - intros f w0. apply quiet_leaf.
  - apply three_listeners_well_formed.
  - vm_compute. discriminate.
Defined.

(** X4: the same [emit] when the listener [1] raises. *)
Lemma emit_stops_at_first_exception_witness :
  ∃ w',
    emit one_raises "x" (Args [VInt 7] []) three_listeners
      = (Raise (UserError "boom"), w') ∧
    calls w' = [(0, Args [VInt 7] []); (1, Args [VInt 7] [])] ∧
    default [] (_events w' !! "x") = [(0, Plain 0); (2, Plain 2)] ∧
    ∀ event', event' ≠ "x" → _events w' !! event' = _events three_listeners !! event'.
Proof.
  apply (emit_stops_at_first_exception one_raises "x" (Args [VInt 7] [])
           one_raises_what three_listeners [0] 1 (UserError "boom") [2]).
  - intros f w0. apply one_raises_leaf.
  - apply three_listeners_well_formed.
  - reflexivity.
  - repeat constructor.
  - reflexivity.
Defined.

(** X5 for an event without listeners, for listeners that return and
    for a listener that raises. *)
Lemma emit_outcomes_witness :
  let w' := (emit one_raises "x" no_arguments three_listeners).2 in
  (false = bool_decide (listeners "missing" new_emitter ≠ []) ∧
   (false = false → new_emitter = new_emitter ∧ "missing" ≠ "error")) ∧
  (∃ w1, emit quiet "x" no_arguments three_listeners = (Ok true, w1)) ∧
  ((listeners "x" three_listeners = [] ∧ "x" = "error" ∧ w' = three_listeners ∧
    UserError "boom" = match first_positional no_arguments with
                       | VExc e' => e'
                       | error => PyeeError error
                       end) ∨
   (∃ pre v post b w_pre prev,
      values (default [] (_events three_listeners !! "x")) = pre ++ v :: post ∧
      run_handlers one_raises pre no_arguments false three_listeners = (Ok b, w_pre) ∧
      calls prev = calls w_pre ∧ user prev = user w_pre ∧
      (∀ event', listeners event' prev ⊆ listeners event' w_pre) ∧
      one_raises (listener_of v) no_arguments
        (record_call (listener_of v) no_arguments prev)
        = (Raise (UserError "boom"), w') ∧
      (well_formed (_events three_listeners) →
       listener_of v ∈ listeners "x" three_listeners))).
Proof.
  intros w'.
  destruct (emit_outcomes quiet "missing" no_arguments new_emitter) as [Hout _].
  destruct (emit_outcomes quiet "x" no_arguments three_listeners) as [_ Hreturn].
  destruct (emit_outcomes one_raises "x" no_arguments three_listeners) as [Hraise _].
  split; [| split].
  - apply (Hout (Ok false) new_emitter). reflexivity.
  - apply Hreturn.
    + vm_compute. discriminate.
    + intros v _ w0. exists VNone, w0. reflexivity.
  - apply (Hraise (Raise (UserError "boom")) w'). reflexivity.
Defined.

(** X6: taking [1] out of [0], [1], [2]. *)
Lemma remove_listener_removes_one_witness :
  ∃ w',
    remove_listener "x" 1 three_listeners = (Ok tt, w') ∧
    default [] (_events w' !! "x") = [(0, Plain 0); (2, Plain 2)] ∧
    listeners "x" w' = [0; 2] ∧
    ("x" ∈ event_names w' ↔ listeners "x" w' ≠ []) ∧
    (∀ event', event' ≠ "x" → _events w' !! event' = _events three_listeners !! event') ∧
    user w' = user three_listeners ∧ calls w' = calls three_listeners.
Proof.
  apply (remove_listener_removes_one "x" 1 three_listeners
           [(0, Plain 0); (1, OnceWrapper "x" 1); (2, Plain 2)]).
  - reflexivity.
  - apply (bool_decide_unpack _). vm_compute. exact I.
  - apply (bool_decide_unpack _). vm_compute. exact I.
Defined.

(** X9 at a new emitter. *)
Lemma register_then_remove_witness :
  ∃ w1 w2,
    on quiet "x" (Some 0) new_emitter = (Ok (Registered 0), w1) ∧
    remove_listener "x" 0 w1 = (Ok tt, new_emitter) ∧
    once quiet "x" (Some 0) new_emitter = (Ok (Registered 0), w2) ∧
    remove_listener "x" 0 w2 = (Ok tt, new_emitter).
Proof.
  apply (register_then_remove quiet "x" 0 new_emitter false new_emitter).
  - reflexivity.
  - vm_compute. apply not_elem_of_nil.
  - vm_compute. discriminate.
Defined.

(** X10: [on("x", 1)] and [once("x", 1)] for the listener that [once] has
    registered at position [1]. *)
Lemma registration_replaces_callable_witness :
  ∃ w2 w3,
    on quiet "x" (Some 1) three_listeners = (Ok (Registered 1), w2) ∧
    once quiet "x" (Some 1) three_listeners = (Ok (Registered 1), w3) ∧
    default [] (_events w2 !! "x") = [(0, Plain 0); (1, Plain 1); (2, Plain 2)] ∧
    default [] (_events w3 !! "x")
      = [(0, Plain 0); (1, OnceWrapper "x" 1); (2, Plain 2)] ∧
    listeners "x" w2 = [0; 1; 2] ∧
    listeners "x" w3 = [0; 1; 2].
Proof.
  apply (registration_replaces_callable quiet "x" 1 three_listeners false
           three_listeners 1).
  - reflexivity.
  - apply (bool_decide_unpack _). vm_compute. exact I.
  - reflexivity.
Defined.

(** X11 at a new emitter. *)
Lemma new_listener_not_for_itself_witness :
  ∃ w1,
    on quiet "new_listener" (Some 9) new_emitter = (Ok (Registered 9), w1) ∧
    calls w1 = [] ∧
    9 ∈ listeners "new_listener" w1 ∧
    ∀ event f, ∃ w2,
      on quiet event (Some f) w1 = (Ok (Registered f), w2) ∧
      (9, Args [VStr event; VFun f] []) ∈ calls w2.
Proof.
  apply (new_listener_not_for_itself quiet 9 new_emitter).
  - intros f a w0. apply quiet_leaf.
  - apply well_formed_empty.
  - vm_compute. apply not_elem_of_nil.
Defined.

(** X12 at a new emitter. *)
Lemma decorated_listener_can_be_removed_witness :
  ∃ d_on d_once,
    on quiet "x" None new_emitter = (Ok (Decorator d_on), new_emitter) ∧
    once quiet "x" None new_emitter = (Ok (Decorator d_once), new_emitter) ∧
    (∃ w1 w2,
       d_on 0 new_emitter = (Ok 0, w1) ∧
       on quiet "x" (Some 0) new_emitter = (Ok (Registered 0), w1) ∧
       remove_listener "x" 0 w1 = (Ok tt, w2) ∧
       0 ∉ listeners "x" w2) ∧
    (∃ w1 w2,
       d_once 0 new_emitter = (Ok 0, w1) ∧
       once quiet "x" (Some 0) new_emitter = (Ok (Registered 0), w1) ∧
       remove_listener "x" 0 w1 = (Ok tt, w2) ∧
       0 ∉ listeners "x" w2).
Proof.
  apply (decorated_listener_can_be_removed quiet "x" 0 new_emitter new_emitter
           false new_emitter).
  - reflexivity.
  - apply (bool_decide_unpack _). vm_compute. exact I.
Defined.

(** X15: a class with handlers for ["a"], ["b"] and, by the same method,
    ["a"] again. *)
Lemma init_registers_in_order_witness :
  ∃ w',
    cls.init quiet [cls.mkHandler "a" 5; cls.mkHandler "b" 6; cls.mkHandler "a" 5]
      None (λ i, i) new_emitter = (Ok tt, w') ∧
    user w' = tt ∧ calls w' = [] ∧
    ∀ e, listeners e w' =
         cls.bound_for e (λ i, i) 0
           [cls.mkHandler "a" 5; cls.mkHandler "b" 6; cls.mkHandler "a" 5].
Proof.
  apply (init_registers_in_order quiet
           [cls.mkHandler "a" 5; cls.mkHandler "b" 6; cls.mkHandler "a" 5]
           None (λ i, i) new_emitter new_emitter).
  - reflexivity.
  - intros i j Hij. exact Hij.
  - repeat constructor; discriminate.
Defined.

(** X16: the class of [tests/test_cls.py], with one handler for
    ["event"]. *)
Lemma evented_emit_calls_method_witness :
  ∃ w1,
    cls.init quiet [cls.mkHandler "event" 5] None (λ i, i) new_emitter = (Ok tt, w1) ∧
    listeners "event" w1 = [0] ∧
    emit quiet "event" (Args [VStr "hello world"] [("numbers", VInt 123)]) w1 =
      (Ok true,
       World (_events w1) (user w1)
         (calls w1 ++ [(0, Args [VStr "hello world"] [("numbers", VInt 123)])])).
Proof.
  apply (evented_emit_calls_method quiet (VStr "evented_obj") "event" 5
           (λ _ w, (Ok VNone, w)) (λ i, i)
           (Args [VStr "hello world"] [("numbers", VInt 123)]) new_emitter).
  - reflexivity.
  - discriminate.
Defined.


